(** * ScatterWebExtension: the background script ([src/background.js])

    A shallow embedding of the [Background] class: the session passphrase
    ([seed]), the inactivity timer, the lock guard and the handlers that
    [dispenseMessage] delegates to, followed by the properties of the
    specification that concern them.

    Modelling conventions.
    - The three module-level variables of the script ([seed],
      [inactivityInterval], [timeoutLocker]) together with the browser
      resources the script touches (the timer table, the clock, the local
      storage) and the two observable outputs (responses sent, prompts opened)
      form the record [World].
    - Handlers are written in a state-and-exception monad [Eff]; an exception
      is an abrupt completion.  A callback handed to a promise's [then] is run
      by [promise_then], which swallows an abrupt completion the way an
      unhandled rejection does.
    - Promises settle before the next event is processed: a handler together
      with its storage callbacks is one atomic step.  Where a handler starts
      two read-modify-write cycles in the same turn, both reads come before
      either write; cycles of different requests do not overlap.
    - Classes that the script imports but whose source is not part of the
      file are either record types below (their data), small definitions
      marked as modelled from the specification, or fields of the class
      [Collaborators] (ciphers, signatures, services). *)

From Stdlib Require Import String List ZArith Bool Lia.
Import ListNotations.

Local Open Scope string_scope.
Local Open Scope Z_scope.

(* ------------------------------------------------------------------ *)
(** ** Data model *)

Record Network := { host : string; port : Z }.

(** Modelled from the spec: [Network.unique()] is not in the source; the
    data model gives a Network "host, port, and a derived uniqueness key
    combining both". *)
Definition Network_unique (n : Network) : string * Z := (host n, port n).

(** [a === b] on uniqueness keys. *)
Definition unique_eqb (a b : string * Z) : bool :=
  String.eqb (fst a) (fst b) && Z.eqb (snd a) (snd b).

(** [Network.fromJson]: the payload is already typed here. *)
Definition Network_fromJson (n : Network) : Network := n.

Record Keypair := {
  Keypair_publicKey : string;
  Keypair_privateKey : string
}.

Record Identity := {
  Identity_name : string;
  Identity_publicKey : string;
  Identity_privateKey : string;
  Identity_fields : list (string * string)
}.

Record Permission := {
  Permission_domain : string;
  Permission_network : Network;
  Permission_publicKey : string;
  Permission_fields : list string;
  Permission_timestamp : Z;
  Permission_checksum : string
}.

Record Keychain := {
  keypairs : list Keypair;
  identities : list Identity;
  permissions : list Permission
}.

Definition with_keypairs (l : list Keypair) (k : Keychain) : Keychain :=
  {| keypairs := l; identities := identities k; permissions := permissions k |}.
Definition with_identities (l : list Identity) (k : Keychain) : Keychain :=
  {| keypairs := keypairs k; identities := l; permissions := permissions k |}.
Definition with_permissions (l : list Permission) (k : Keychain) : Keychain :=
  {| keypairs := keypairs k; identities := identities k; permissions := l |}.

(** Modelled from the spec: [Keychain.findIdentity] is not in the source;
    the gateway section says "look up Identity by public key". *)
Definition Keychain_findIdentity (publicKey : string) (k : Keychain) : option Identity :=
  find (fun id => String.eqb (Identity_publicKey id) publicKey) (identities k).

(** Modelled from the spec: [Keychain.hasPermission] is not in the source;
    the permission index "inserts the permission only if no existing entry
    shares its checksum", the checksum being derived from
    (domain, network, publicKey, fields). *)
Definition Keychain_hasPermission (checksum : string) (fields : list string)
    (k : Keychain) : bool :=
  existsb (fun p => String.eqb (Permission_checksum p) checksum) (permissions k).

Record Settings := {
  Settings_inactivityInterval : Z;
  networks : list Network
}.

Definition with_interval (i : Z) (s : Settings) : Settings :=
  {| Settings_inactivityInterval := i; networks := networks s |}.
Definition with_networks (l : list Network) (s : Settings) : Settings :=
  {| Settings_inactivityInterval := Settings_inactivityInterval s; networks := l |}.

(** The constants of [HistoricEventTypes] are opaque tags. *)
Inductive HistoricEventType :=
| PROVIDED_IDENTITY
| otherEventType (name : string).

(** The payload of an event: the one the script builds itself, and
    whatever the signature service records. *)
Inductive HistoricData :=
| providedIdentity (domain : string) (network : Network) (provided : bool)
                   (identityName publicKey : string)
| otherData (description : string).

Record HistoricEvent := {
  HistoricEvent_type : HistoricEventType;
  HistoricEvent_data : HistoricData;
  HistoricEvent_timestamp : Z
}.

(** The [keychain] property of a Scatter holds the keychain object while
    the document is in the clear and a ciphertext while it is encrypted
    ([typeof scatter.keychain === 'object'] tells them apart).  The
    settings and the histories stay readable either way: [load] reads
    [scatter.settings] before it decrypts. *)
Inductive KeychainSlot (C : Type) :=
| object (k : Keychain)
| ciphertext (c : C).
Arguments object {C} k.
Arguments ciphertext {C} c.

Record Scatter (C : Type) := {
  settings : Settings;
  keychain : KeychainSlot C;
  histories : list HistoricEvent
}.
Arguments settings {C} s.
Arguments keychain {C} s.
Arguments histories {C} s.

Definition with_settings {C} (s : Settings) (v : Scatter C) : Scatter C :=
  {| settings := s; keychain := keychain v; histories := histories v |}.
Definition with_keychain {C} (k : KeychainSlot C) (v : Scatter C) : Scatter C :=
  {| settings := settings v; keychain := k; histories := histories v |}.
Definition with_histories {C} (h : list HistoricEvent) (v : Scatter C) : Scatter C :=
  {| settings := settings v; keychain := keychain v; histories := h |}.

Definition typeof_keychain_is_object {C} (v : Scatter C) : bool :=
  match keychain v with object _ => true | ciphertext _ => false end.

(** [Scatter.fromJson]: the payload is already typed here. *)
Definition Scatter_fromJson {C} (v : Scatter C) : Scatter C := v.

(** Modelled from the spec: [models/errors/Error] is not in the source;
    each factory the script calls is a constructor, and the error kinds
    are those of the error-handling section. *)
Inductive Error :=
| Error_locked
| Error_identityMissing
| Error_maliciousEvent
| Error_signatureError (type message : string).

(** The constants of [PromptTypes] are opaque tags. *)
Inductive PromptType :=
| REQUEST_ADD_NETWORK_PROMPT
| UPDATE_VERSION_PROMPT.

(** What a handler passes to [sendResponse]. *)
Inductive Response (C : Type) :=
| RBool (b : bool)
| RNull
| RString (s : string)
| RScatter (scatter : Scatter C)
| RIdentity (identity : Identity)
| RError (e : Error).
Arguments RBool {C} b.
Arguments RNull {C}.
Arguments RString {C} s.
Arguments RScatter {C} scatter.
Arguments RIdentity {C} identity.
Arguments RError {C} e.

(** [seed.length] used as a condition. *)
Definition has_length (s : string) : bool := negb (Nat.eqb (String.length s) 0).

(** [seed] used as a condition: a string is falsy only when empty. *)
Definition truthy (s : string) : bool :=
  match s with EmptyString => false | String _ _ => true end.

(* ------------------------------------------------------------------ *)
(** ** Collaborators

    What the script imports and calls but does not define: the cipher
    behind [encrypt]/[decrypt] on the models, [aes-oop], [eosjs-ecc], the
    identity and signature services, the timing helper and the manifest.
    A decryption returns [None] where the JavaScript throws.  A ciphertext
    is a string in the extension; its representation is left open here. *)

(** Modelled from the spec: [SignatureService.requestSignature] is not in
    the source.  It receives the payload, the loaded vault, the Background
    class and [sendResponse]; per the gateway section it co-signs only on
    approval and, if newly approved, records a HistoricEvent and grants
    Permissions through the Background helpers, then answers. *)
Record SignatureOutcome (C : Type) := {
  recorded : list (HistoricEventType * HistoricData);
  granted : list Permission;
  answer : option (Response C)
}.
Arguments recorded {C} s.
Arguments granted {C} s.
Arguments answer {C} s.

Class Collaborators := {
  Ciphertext : Type;
  SignaturePayload : Type;

  (* models/Scatter, models/Keypair, models/Identity *)
  Scatter_placeholder : Scatter Ciphertext;
  Scatter_encrypt : Scatter Ciphertext -> string -> Scatter Ciphertext;
  Scatter_decrypt : Scatter Ciphertext -> string -> option (Scatter Ciphertext);
  Keypair_encrypt : Keypair -> string -> Keypair;
  Identity_encrypt : Identity -> string -> Identity;
  Identity_decrypt : Identity -> string -> option Identity;
  Identity_asOnlyRequiredFields : Identity -> list string -> Network -> Identity;

  (* models/Permission *)
  checksumOf : string -> Network -> string -> list string -> string;
  Permission_identity : Permission -> KeychainSlot Ciphertext -> option Identity;

  (* aes-oop, eosjs-ecc *)
  AES_decrypt : string -> string -> option string;
  ecc_isValidPrivate : string -> bool;
  ecc_sign : string -> string -> string;

  (* services and helpers; [getOrRequestIdentity] yields what it passes to
     its callback: the identity, if any, and whether a permission gave it *)
  IdentityService_identityPermission : string -> Scatter Ciphertext -> option Permission;
  IdentityService_getOrRequestIdentity :
    string -> Network -> list string -> Scatter Ciphertext -> option Identity * bool;
  SignatureService_requestSignature :
    SignaturePayload -> Scatter Ciphertext -> SignatureOutcome Ciphertext;
  TimingHelpers_minutes : Z -> Z;
  apis_app_version : string
}.

(** How a piece of script ends: with a value, or by an exception nobody
    has caught yet. *)
Inductive Completion (A : Type) :=
| Normal (a : A)
| Abrupt.
Arguments Normal {A} a.
Arguments Abrupt {A}.

Declare Scope eff_scope.
Delimit Scope eff_scope with eff.

Module Background.
Section Script.
Context {X : Collaborators}.

Abbreviation Vault := (Scatter Ciphertext).
Abbreviation Reply := (Response Ciphertext).

(** [Permission.fromJson]: the checksum is derived from the four
    identifying properties. *)
Definition Permission_fromJson (domain : string) (network : Network)
    (publicKey : string) (timestamp : Z) (fields : list string) : Permission :=
  {| Permission_domain := domain;
     Permission_network := network;
     Permission_publicKey := publicKey;
     Permission_fields := fields;
     Permission_timestamp := timestamp;
     Permission_checksum := checksumOf domain network publicKey fields |}.

(** *** Prompts

    The completion callback of a prompt is a closure; it is kept as the
    values it captures, and [Prompt_respond] below runs it. *)
Inductive Responder :=
| onAddNetwork (scatter : Vault) (network : Network)
| onNothing.

Inductive Prompt :=
| scatterIsLocked
| Prompt_new (type : PromptType) (domain : string) (network : Network)
             (data : Network) (responder : Responder).

(** *** The world the script runs in *)
Record World := {
  (* module-level variables of background.js *)
  seed : string;
  inactivityInterval : Z;
  timeoutLocker : option positive;
  (* browser: clock and pending timers (handle, deadline) *)
  clock : Z;
  timers : list (positive * Z);
  nextHandle : positive;
  (* StorageService *)
  storage : option Vault;
  (* outputs: sendResponse calls and NotificationService.open calls *)
  responses : list Reply;
  prompts : list Prompt
}.

Definition with_seed (s : string) (w : World) : World :=
  {| seed := s; inactivityInterval := inactivityInterval w;
     timeoutLocker := timeoutLocker w; clock := clock w; timers := timers w;
     nextHandle := nextHandle w; storage := storage w;
     responses := responses w; prompts := prompts w |}.
Definition with_inactivityInterval (i : Z) (w : World) : World :=
  {| seed := seed w; inactivityInterval := i;
     timeoutLocker := timeoutLocker w; clock := clock w; timers := timers w;
     nextHandle := nextHandle w; storage := storage w;
     responses := responses w; prompts := prompts w |}.
Definition with_timeoutLocker (t : option positive) (w : World) : World :=
  {| seed := seed w; inactivityInterval := inactivityInterval w;
     timeoutLocker := t; clock := clock w; timers := timers w;
     nextHandle := nextHandle w; storage := storage w;
     responses := responses w; prompts := prompts w |}.
Definition with_clock (t : Z) (w : World) : World :=
  {| seed := seed w; inactivityInterval := inactivityInterval w;
     timeoutLocker := timeoutLocker w; clock := t; timers := timers w;
     nextHandle := nextHandle w; storage := storage w;
     responses := responses w; prompts := prompts w |}.
Definition with_timers (l : list (positive * Z)) (w : World) : World :=
  {| seed := seed w; inactivityInterval := inactivityInterval w;
     timeoutLocker := timeoutLocker w; clock := clock w; timers := l;
     nextHandle := nextHandle w; storage := storage w;
     responses := responses w; prompts := prompts w |}.
Definition with_nextHandle (n : positive) (w : World) : World :=
  {| seed := seed w; inactivityInterval := inactivityInterval w;
     timeoutLocker := timeoutLocker w; clock := clock w; timers := timers w;
     nextHandle := n; storage := storage w;
     responses := responses w; prompts := prompts w |}.
Definition with_storage (s : option Vault) (w : World) : World :=
  {| seed := seed w; inactivityInterval := inactivityInterval w;
     timeoutLocker := timeoutLocker w; clock := clock w; timers := timers w;
     nextHandle := nextHandle w; storage := s;
     responses := responses w; prompts := prompts w |}.
Definition with_responses (l : list Reply) (w : World) : World :=
  {| seed := seed w; inactivityInterval := inactivityInterval w;
     timeoutLocker := timeoutLocker w; clock := clock w; timers := timers w;
     nextHandle := nextHandle w; storage := storage w;
     responses := l; prompts := prompts w |}.
Definition with_prompts (l : list Prompt) (w : World) : World :=
  {| seed := seed w; inactivityInterval := inactivityInterval w;
     timeoutLocker := timeoutLocker w; clock := clock w; timers := timers w;
     nextHandle := nextHandle w; storage := storage w;
     responses := responses w; prompts := l |}.

(** *** The effect monad *)
Definition Eff (A : Type) := World -> Completion A * World.

Definition ret {A} (a : A) : Eff A := fun w => (Normal a, w).
Definition bind {A B} (m : Eff A) (k : A -> Eff B) : Eff B :=
  fun w => match m w with
           | (Normal a, w') => k a w'
           | (Abrupt, w') => (Abrupt, w')
           end.
Definition throw {A} : Eff A := fun w => (Abrupt, w).
Definition gets {A} (f : World -> A) : Eff A := fun w => (Normal (f w), w).
Definition modify (f : World -> World) : Eff unit := fun w => (Normal tt, f w).

(** [try { body } catch(e) { handler }] *)
Definition try_catch {A} (body handler : Eff A) : Eff A :=
  fun w => match body w with
           | (Normal a, w') => (Normal a, w')
           | (Abrupt, w') => handler w'
           end.

(** [promise.then(callback)]: an exception inside the callback rejects the
    derived promise, which nobody observes. *)
Definition promise_then (callback : Eff unit) : Eff unit :=
  fun w => (Normal tt, snd (callback w)).

(** A value that throws when it is absent. *)
Definition orThrow {A} (o : option A) : Eff A :=
  match o with Some a => ret a | None => throw end.

Definition exec {A} (m : Eff A) (w : World) : World := snd (m w).

Notation "x <- m ;; k" := (bind m (fun x => k))
  (at level 61, m at next level, right associativity) : eff_scope.
Notation "m ;; k" := (bind m (fun _ => k))
  (at level 61, right associativity) : eff_scope.
Local Open Scope eff_scope.

(** *** Browser and service primitives *)

(** The runtime keeps the delay of a timer as a signed 32-bit number of
    milliseconds: a delay from 1 to 2147483647 is waited for, and with any
    other delay the timer fires at once. *)
Definition TIMEOUT_MAX : Z := 2147483647.

Definition timer_delay (delay : Z) : Z :=
  if (1 <=? delay) && (delay <=? TIMEOUT_MAX) then delay else 0.

(** [setTimeout(() => seed = '', delay)]: the only timer callback of the
    script clears the seed, so a pending timer is its handle and deadline,
    [now] plus the delay the runtime waits for. *)
Definition window_setTimeout (delay : Z) : Eff positive :=
  fun w => (Normal (nextHandle w),
            with_nextHandle (Pos.succ (nextHandle w))
              (with_timers ((nextHandle w, clock w + timer_delay delay) :: timers w) w)).

Definition window_clearTimeout (handle : positive) : Eff unit :=
  modify (fun w => with_timers
                     (filter (fun e => negb (Pos.eqb (fst e) handle)) (timers w)) w).

(** Time passes: every pending timer whose deadline is reached fires. *)
Definition due (t : Z) (e : positive * Z) : bool := snd e <=? t.

Definition elapse (d : Z) (w : World) : World :=
  let t := clock w + d in
  let w' := with_clock t
              (with_timers (filter (fun e => negb (due t e)) (timers w)) w) in
  match filter (due t) (timers w) with
  | [] => w'
  | _ :: _ => with_seed "" w'
  end.

(** Modelled from the spec: [StorageService] is not in the source; it is
    "a storage adapter exposing get() -> Vault|empty and save(Vault) -> ack".
    An empty storage yields the placeholder vault; [save] writes the
    document as it is at the moment of the call. *)
Definition StorageService_get : Eff Vault :=
  gets (fun w => match storage w with
                 | Some scatter => scatter
                 | None => Scatter_placeholder
                 end).

Definition StorageService_save (scatter : Vault) : Eff unit :=
  modify (with_storage (Some scatter)).

(** [apis.storage.local.clear()] *)
Definition storage_local_clear : Eff unit := modify (with_storage None).

(** [NotificationService.open(prompt)] *)
Definition NotificationService_open (p : Prompt) : Eff unit :=
  modify (fun w => with_prompts (prompts w ++ [p]) w).

(** The [sendResponse] of a dispatched request: the response is recorded. *)
Definition respond (r : Reply) : Eff unit :=
  modify (fun w => with_responses (responses w ++ [r]) w).

(** [scatter.decrypt(seed)], throwing where the cipher does. *)
Definition decrypt (scatter : Vault) (s : string) : Eff Vault :=
  orThrow (Scatter_decrypt scatter s).

(** [scatter.keychain.<member>]: on an encrypted document the keychain is
    a string, the member is undefined and its use is a TypeError. *)
Definition keychain_object (scatter : Vault) : Eff Keychain :=
  match keychain scatter with
  | object k => ret k
  | ciphertext _ => throw
  end.

(** *** Helpers: lockGuard *)

Definition lockGuard (sendResponse : Reply -> Eff unit) (cb : Eff unit) : Eff unit :=
  s <- gets seed ;;
  if negb (has_length s) then
    NotificationService_open scatterIsLocked ;;
    sendResponse (RError Error_locked)
  else cb.

(** *** Auto-lock *)

Definition checkAutoLock : Eff unit :=
  interval <- gets inactivityInterval ;;
  if interval =? 0 then ret tt
  else
    locker <- gets timeoutLocker ;;
    match locker with
    | Some handle => window_clearTimeout handle
    | None => ret tt
    end ;;
    s <- gets seed ;;
    if truthy s then
      handle <- window_setTimeout interval ;;
      modify (with_timeoutLocker (Some handle))
    else ret tt.

(** *** Handlers *)

Definition setSeed (sendResponse : Reply -> Eff unit) (_seed : string) : Eff unit :=
  modify (with_seed _seed) ;;
  sendResponse (RBool true).

Definition isUnlocked (sendResponse : Reply -> Eff unit) : Eff unit :=
  s <- gets seed ;;
  if has_length s then
    promise_then (
      scatter <- StorageService_get ;;
      try_catch
        (s <- gets seed ;;
         scatter <- decrypt scatter s ;;
         sendResponse (RBool (typeof_keychain_is_object scatter)))
        (modify (with_seed "") ;;
         sendResponse (RBool false)))
  else sendResponse (RBool false).

Definition load (sendResponse : Vault -> Eff unit) : Eff unit :=
  promise_then (
    scatter <- StorageService_get ;;
    modify (with_inactivityInterval (Settings_inactivityInterval (settings scatter))) ;;
    s <- gets seed ;;
    scatter <- (if has_length s then decrypt scatter s else ret scatter) ;;
    sendResponse scatter).

Definition update (sendResponse : Reply -> Eff unit) (scatter : Vault) : Eff unit :=
  lockGuard sendResponse (
    let scatter := Scatter_fromJson scatter in
    k <- keychain_object scatter ;;
    s <- gets seed ;;
    let k := with_keypairs (map (fun keypair => Keypair_encrypt keypair s) (keypairs k)) k in
    s <- gets seed ;;
    let k := with_identities (map (fun id => Identity_encrypt id s) (identities k)) k in
    let scatter := with_keychain (object k) scatter in
    s <- gets seed ;;
    let scatter := Scatter_encrypt scatter s in
    StorageService_save scatter ;;
    promise_then (
      s <- gets seed ;;
      scatter <- decrypt scatter s ;;
      sendResponse (RScatter scatter))).

Definition publicToPrivate (sendResponse : Reply -> Eff unit) (publicKey : string)
    : Eff unit :=
  lockGuard sendResponse (
    promise_then (
      scatter <- StorageService_get ;;
      s <- gets seed ;;
      scatter <- decrypt scatter s ;;
      k <- keychain_object scatter ;;
      match find (fun x => String.eqb (Keypair_publicKey x) publicKey) (keypairs k) with
      | Some keypair =>
          s <- gets seed ;;
          privateKey <- orThrow (AES_decrypt (Keypair_privateKey keypair) s) ;;
          sendResponse (RString privateKey)
      | None => sendResponse RNull
      end)).

Definition destroy (sendResponse : Reply -> Eff unit) : Eff unit :=
  lockGuard sendResponse (
    modify (with_seed "") ;;
    storage_local_clear ;;
    sendResponse (RBool true)).

Definition setTimeout (sendResponse : Reply -> Eff unit) (_timeoutMinutes : Z)
    : Eff unit :=
  load (fun scatter =>
    modify (with_inactivityInterval (TimingHelpers_minutes _timeoutMinutes)) ;;
    interval <- gets inactivityInterval ;;
    let scatter := with_settings (with_interval interval (settings scatter)) scatter in
    update (fun _ => ret tt) scatter) ;;
  sendResponse (RBool true).

(** *** Helpers: addHistory, addPermissions *)

Definition addHistory (type : HistoricEventType) (data : HistoricData) : Eff unit :=
  load (fun scatter =>
    now <- gets clock ;;
    let event := {| HistoricEvent_type := type;
                    HistoricEvent_data := data;
                    HistoricEvent_timestamp := now |} in
    let scatter := with_histories (event :: histories scatter) scatter in
    update (fun _ => ret tt) scatter).

(** One turn of the loop of [addPermissions]. *)
Definition grant (k : Keychain) (permission : Permission) : Keychain :=
  if negb (Keychain_hasPermission (Permission_checksum permission)
             (Permission_fields permission) k)
  then with_permissions (permission :: permissions k) k
  else k.

Definition addPermissions (perms : list Permission) : Eff unit :=
  load (fun scatter =>
    scatter <- match perms with
               | [] => ret scatter
               | _ :: _ =>
                   k <- keychain_object scatter ;;
                   ret (with_keychain (object (fold_left grant perms k)) scatter)
               end ;;
    update (fun _ => ret tt) scatter).

(** The helpers once their read of the storage has resolved.  [load]
    issues [StorageService.get()] when it is called and runs its callback
    when the read resolves; where the script calls two helpers in the same
    turn, both reads are issued before either callback runs, so each
    callback works on the document its own read resolved to. *)
Definition load_resolved (scatter : Vault) (sendResponse : Vault -> Eff unit)
    : Eff unit :=
  promise_then (
    modify (with_inactivityInterval (Settings_inactivityInterval (settings scatter))) ;;
    s <- gets seed ;;
    scatter <- (if has_length s then decrypt scatter s else ret scatter) ;;
    sendResponse scatter).

Definition addHistory_resolved (scatter : Vault) (type : HistoricEventType)
    (data : HistoricData) : Eff unit :=
  load_resolved scatter (fun scatter =>
    now <- gets clock ;;
    let event := {| HistoricEvent_type := type;
                    HistoricEvent_data := data;
                    HistoricEvent_timestamp := now |} in
    let scatter := with_histories (event :: histories scatter) scatter in
    update (fun _ => ret tt) scatter).

Definition addPermissions_resolved (scatter : Vault) (perms : list Permission)
    : Eff unit :=
  load_resolved scatter (fun scatter =>
    scatter <- match perms with
               | [] => ret scatter
               | _ :: _ =>
                   k <- keychain_object scatter ;;
                   ret (with_keychain (object (fold_left grant perms k)) scatter)
               end ;;
    update (fun _ => ret tt) scatter).

(** *** Web application handlers *)

Definition identityFromPermissions (sendResponse : Reply -> Eff unit) (domain : string)
    : Eff unit :=
  s <- gets seed ;;
  if negb (has_length s) then sendResponse RNull
  else
    load (fun scatter =>
      match IdentityService_identityPermission domain scatter with
      | None => sendResponse RNull
      | Some permission =>
          identity <- orThrow (Permission_identity permission (keychain scatter)) ;;
          sendResponse (RIdentity (Identity_asOnlyRequiredFields identity
                                     (Permission_fields permission)
                                     (Permission_network permission)))
      end).

(** The identity service hands its callback the identity (none when the
    user rejects) and whether it came from an existing permission; the
    callback is the body below.  For a new identity [addHistory] and
    [addPermissions] are called one after the other in the same turn: the
    storage is read for both before the callback of either runs, and the
    save of the second is the one that stays. *)
Definition getOrRequestIdentity (sendResponse : Reply -> Eff unit)
    (domain : string) (network : Network) (fields : list string) : Eff unit :=
  lockGuard sendResponse (
    load (fun scatter =>
      let network := Network_fromJson network in
      match IdentityService_getOrRequestIdentity domain network fields scatter with
      | (None, _) =>
          sendResponse (RError (Error_signatureError "identity_rejected"
                                  "User rejected the provision of an Identity"))
      | (Some identity, fromPermission) =>
          (if negb fromPermission then
             forHistory <- StorageService_get ;;
             now <- gets clock ;;
             forPermissions <- StorageService_get ;;
             addHistory_resolved forHistory PROVIDED_IDENTITY
               (providedIdentity domain network true
                  (Identity_name identity) (Identity_publicKey identity)) ;;
             addPermissions_resolved forPermissions
               [Permission_fromJson domain network
                  (Identity_publicKey identity) now fields]
           else ret tt) ;;
          sendResponse (RIdentity identity)
      end)).

Definition authenticate (sendResponse : Reply -> Eff unit)
    (publicKey domain : string) : Eff unit :=
  lockGuard sendResponse (
    load (fun scatter =>
      k <- keychain_object scatter ;;
      match Keychain_findIdentity publicKey k with
      | None => sendResponse (RError Error_identityMissing)
      | Some identity =>
          s <- gets seed ;;
          identity <- orThrow (Identity_decrypt identity s) ;;
          if negb (ecc_isValidPrivate (Identity_privateKey identity)) then
            sendResponse (RError Error_maliciousEvent)
          else
            sendResponse (RString (ecc_sign domain (Identity_privateKey identity)))
      end)).

Fixpoint addHistories (events : list (HistoricEventType * HistoricData)) : Eff unit :=
  match events with
  | [] => ret tt
  | (type, data) :: rest => addHistory type data ;; addHistories rest
  end.

(** The signature service is handed the Background class and
    [sendResponse]; what it does with them is replayed from its outcome:
    the events it records, the permissions it grants, the answer it gives. *)
Definition requestSignature (sendResponse : Reply -> Eff unit)
    (payload : SignaturePayload) : Eff unit :=
  lockGuard sendResponse (
    load (fun scatter =>
      let outcome := SignatureService_requestSignature payload scatter in
      addHistories (recorded outcome) ;;
      match granted outcome with
      | [] => ret tt
      | _ :: _ => addPermissions (granted outcome)
      end ;;
      match answer outcome with
      | Some r => sendResponse r
      | None => ret tt
      end)).

(** The completion callback of the add-network prompt:
    [approved === false || approved.hasOwnProperty('isError')]. *)
Definition requestAddNetwork_approved (sendResponse : Reply -> Eff unit)
    (scatter : Vault) (network : Network) (approved : Reply) : Eff unit :=
  match approved with
  | RBool false => sendResponse approved
  | RError _ => sendResponse approved
  | RNull => throw
  | _ =>
      let scatter :=
        with_settings (with_networks (network :: networks (settings scatter))
                         (settings scatter)) scatter in
      update (fun _ => sendResponse approved) scatter
  end.

Definition requestAddNetwork (sendResponse : Reply -> Eff unit)
    (domain : string) (payload_network : Network) : Eff unit :=
  lockGuard sendResponse (
    load (fun scatter =>
      let network := Network_fromJson payload_network in
      match find (fun _network =>
                    unique_eqb (Network_unique _network) (Network_unique network))
                 (networks (settings scatter)) with
      | Some _ => sendResponse (RBool true)
      | None =>
          NotificationService_open
            (Prompt_new REQUEST_ADD_NETWORK_PROMPT domain payload_network network
               (onAddNetwork scatter network))
      end)).

Definition requestGetVersion (sendResponse : Reply -> Eff unit) : Eff unit :=
  sendResponse (RString apis_app_version).

Definition requestVersionUpdate (sendResponse : Reply -> Eff unit) (domain : string)
    : Eff unit :=
  let network := Network_fromJson {| host := ""; port := 0 |} in
  NotificationService_open
    (Prompt_new UPDATE_VERSION_PROMPT domain network network onNothing).

(** The user interface answers a prompt. *)
Definition Prompt_respond (sendResponse : Reply -> Eff unit) (p : Prompt)
    (approved : Reply) : Eff unit :=
  match p with
  | Prompt_new _ _ _ _ (onAddNetwork scatter network) =>
      requestAddNetwork_approved sendResponse scatter network approved
  | _ => ret tt
  end.

(** *** Dispatch *)

Inductive InternalMessage :=
| SET_SEED (payload : string)
| SET_TIMEOUT (payload : Z)
| IS_UNLOCKED
| LOAD
| UPDATE (payload : Vault)
| PUB_TO_PRIV (payload : string)
| DESTROY
| IDENTITY_FROM_PERMISSIONS (domain : string)
| GET_OR_REQUEST_IDENTITY (domain : string) (network : Network) (fields : list string)
| REQUEST_SIGNATURE (payload : SignaturePayload)
| REQUEST_ADD_NETWORK (domain : string) (network : Network)
| REQUEST_GET_VERSION
| REQUEST_VERSION_UPDATE (domain : string)
| AUTHENTICATE (publicKey domain : string)
| UNRECOGNISED (type : string).

(** The [switch] of [dispenseMessage]. *)
Definition handle (sendResponse : Reply -> Eff unit) (message : InternalMessage)
    : Eff unit :=
  match message with
  | SET_SEED payload => setSeed sendResponse payload
  | SET_TIMEOUT payload => setTimeout sendResponse payload
  | IS_UNLOCKED => isUnlocked sendResponse
  | LOAD => load (fun scatter => sendResponse (RScatter scatter))
  | UPDATE payload => update sendResponse payload
  | PUB_TO_PRIV payload => publicToPrivate sendResponse payload
  | DESTROY => destroy sendResponse
  | IDENTITY_FROM_PERMISSIONS domain => identityFromPermissions sendResponse domain
  | GET_OR_REQUEST_IDENTITY domain network fields =>
      getOrRequestIdentity sendResponse domain network fields
  | REQUEST_SIGNATURE payload => requestSignature sendResponse payload
  | REQUEST_ADD_NETWORK domain network => requestAddNetwork sendResponse domain network
  | REQUEST_GET_VERSION => requestGetVersion sendResponse
  | REQUEST_VERSION_UPDATE domain => requestVersionUpdate sendResponse domain
  | AUTHENTICATE publicKey domain => authenticate sendResponse publicKey domain
  | UNRECOGNISED _ => ret tt
  end.

Definition dispenseMessage (sendResponse : Reply -> Eff unit)
    (message : InternalMessage) : Eff unit :=
  checkAutoLock ;;
  handle sendResponse message.

(** The operations the specification calls privileged: those behind
    [lockGuard]. *)
Definition privileged (message : InternalMessage) : bool :=
  match message with
  | UPDATE _ | PUB_TO_PRIV _ | DESTROY | GET_OR_REQUEST_IDENTITY _ _ _
  | AUTHENTICATE _ _ | REQUEST_SIGNATURE _ | REQUEST_ADD_NETWORK _ _ => true
  | _ => false
  end.

(** *** Events of a run

    A request arrives, time passes, or the user interface answers the
    [n]-th prompt opened so far. *)
Inductive Event :=
| Dispatch (message : InternalMessage)
| Elapse (d : Z)
| Answer (n : nat) (approved : Reply).

Definition step (w : World) (e : Event) : World :=
  match e with
  | Dispatch message => exec (dispenseMessage respond message) w
  | Elapse d => elapse d w
  | Answer n approved =>
      match nth_error (prompts w) n with
      | Some p => exec (Prompt_respond respond p approved) w
      | None => w
      end
  end.

Definition run (w : World) (events : list Event) : World :=
  fold_left step events w.

(** The state of the script when it is loaded. *)
Definition initial (store : option Vault) : World :=
  {| seed := ""; inactivityInterval := 0; timeoutLocker := None;
     clock := 0; timers := []; nextHandle := 1%positive;
     storage := store; responses := []; prompts := [] |}.

End Script.
End Background.

Import Background.

(* ------------------------------------------------------------------ *)
(** ** An ideal instance of the collaborators

    A ciphertext is the sealed keychain together with the passphrase it was
    sealed under; unsealing under another passphrase throws.  The
    instance serves as the concrete setting of the examples. *)

Module Ideal.

Definition seal (s plain : string) : string := "aes:" ++ s ++ "|" ++ plain.

Definition sealed (c : string) : bool := String.prefix "aes:" c.

Fixpoint unseal_prefix (pre c : string) : option string :=
  match pre with
  | EmptyString => Some c
  | String a pre' =>
      match c with
      | String b c' => if Ascii.eqb a b then unseal_prefix pre' c' else None
      | EmptyString => None
      end
  end.

Definition unseal (c s : string) : option string :=
  unseal_prefix ("aes:" ++ s ++ "|") c.

Definition encrypt (v : Scatter (Keychain * string)) (s : string)
    : Scatter (Keychain * string) :=
  match keychain v with
  | object k => with_keychain (ciphertext (k, s)) v
  | ciphertext _ => v
  end.

Definition decrypt (v : Scatter (Keychain * string)) (s : string)
    : option (Scatter (Keychain * string)) :=
  match keychain v with
  | object _ => Some v
  | ciphertext (k, key) =>
      if String.eqb key s then Some (with_keychain (object k) v) else None
  end.

Definition placeholder : Scatter (Keychain * string) :=
  {| settings := {| Settings_inactivityInterval := 0; networks := [] |};
     keychain := object {| keypairs := []; identities := []; permissions := [] |};
     histories := [] |}.

Definition identityPermission (domain : string) (v : Scatter (Keychain * string))
    : option Permission :=
  match keychain v with
  | object k => find (fun p => String.eqb (Permission_domain p) domain) (permissions k)
  | ciphertext _ => None
  end.

Definition identityOf (p : Permission) (slot : KeychainSlot (Keychain * string))
    : option Identity :=
  match slot with
  | object k => Keychain_findIdentity (Permission_publicKey p) k
  | ciphertext _ => None
  end.

Definition with_privateKey (key : string) (id : Identity) : Identity :=
  {| Identity_name := Identity_name id;
     Identity_publicKey := Identity_publicKey id;
     Identity_privateKey := key;
     Identity_fields := Identity_fields id |}.

#[export] Instance collaborators : Collaborators := {|
  Ciphertext := Keychain * string;
  SignaturePayload := string;
  Scatter_placeholder := placeholder;
  Scatter_encrypt := encrypt;
  Scatter_decrypt := decrypt;
  Keypair_encrypt := fun kp s =>
    if sealed (Keypair_privateKey kp) then kp
    else {| Keypair_publicKey := Keypair_publicKey kp;
            Keypair_privateKey := seal s (Keypair_privateKey kp) |};
  Identity_encrypt := fun id s =>
    if sealed (Identity_privateKey id) then id
    else with_privateKey (seal s (Identity_privateKey id)) id;
  Identity_decrypt := fun id s =>
    if sealed (Identity_privateKey id) then
      match unseal (Identity_privateKey id) s with
      | Some plain => Some (with_privateKey plain id)
      | None => None
      end
    else Some id;
  Identity_asOnlyRequiredFields := fun id fields _ =>
    {| Identity_name := Identity_name id;
       Identity_publicKey := Identity_publicKey id;
       Identity_privateKey := "";
       Identity_fields :=
         filter (fun f => existsb (String.eqb (fst f)) fields) (Identity_fields id) |};
  checksumOf := fun domain network publicKey fields =>
    String.concat "," (domain :: host network :: publicKey :: fields);
  Permission_identity := identityOf;
  AES_decrypt := unseal;
  ecc_isValidPrivate := fun key => String.prefix "5" key;
  ecc_sign := fun data key => "SIG(" ++ data ++ ")" ++ key;
  IdentityService_identityPermission := identityPermission;
  IdentityService_getOrRequestIdentity := fun _ _ _ _ => (None, false);
  SignatureService_requestSignature := fun _ _ =>
    {| recorded := []; granted := []; answer := None |};
  TimingHelpers_minutes := fun m => m * 60 * 1000;
  apis_app_version := "0.0.0"
|}.

(** A keychain as the user interface hands it over, private keys in the
    clear: one keypair and two identities, the second with a private key
    that is not a key. *)
Definition imported : Keychain :=
  {| keypairs := [ {| Keypair_publicKey := "A"; Keypair_privateKey := "5Kpriv" |} ];
     identities := [ {| Identity_name := "alice";
                        Identity_publicKey := "A";
                        Identity_privateKey := "5Kpriv";
                        Identity_fields := [] |};
                     {| Identity_name := "mallory";
                        Identity_publicKey := "M";
                        Identity_privateKey := "garbage";
                        Identity_fields := [] |} ];
     permissions := [] |}.

(** The same keychain with its private keys sealed under ["correct-seed"]. *)
Definition keys : Keychain :=
  {| keypairs := [ {| Keypair_publicKey := "A";
                      Keypair_privateKey := "aes:correct-seed|5Kpriv" |} ];
     identities := [ {| Identity_name := "alice";
                        Identity_publicKey := "A";
                        Identity_privateKey := "aes:correct-seed|5Kpriv";
                        Identity_fields := [] |};
                     {| Identity_name := "mallory";
                        Identity_publicKey := "M";
                        Identity_privateKey := "aes:correct-seed|garbage";
                        Identity_fields := [] |} ];
     permissions := [] |}.

(** The stored vault: that keychain sealed under ["correct-seed"]. *)
Definition vault : Scatter Ciphertext :=
  {| settings := {| Settings_inactivityInterval := 0;
                    networks := [ {| host := "node.example"; port := 8888 |} ] |};
     keychain := ciphertext (keys, "correct-seed");
     histories := [] |}.

(** The same vault once decrypted. *)
Definition opened : Scatter Ciphertext := with_keychain (object keys) vault.

Definition locked : World := initial (Some vault).

Definition unlocked : World :=
  with_seed "correct-seed" (initial (Some vault)).

Definition mistaken : World :=
  with_seed "wrong-seed" (initial (Some vault)).

End Ideal.

#[local] Existing Instance Ideal.collaborators.

(** An instance whose identity service finds alice through a permission. *)
Definition Ideal_permitted : Collaborators := {|
  Ciphertext := Keychain * string;
  SignaturePayload := string;
  Scatter_placeholder := Ideal.placeholder;
  Scatter_encrypt := Ideal.encrypt;
  Scatter_decrypt := Ideal.decrypt;
  Keypair_encrypt := @Keypair_encrypt Ideal.collaborators;
  Identity_encrypt := @Identity_encrypt Ideal.collaborators;
  Identity_decrypt := @Identity_decrypt Ideal.collaborators;
  Identity_asOnlyRequiredFields := @Identity_asOnlyRequiredFields Ideal.collaborators;
  checksumOf := @checksumOf Ideal.collaborators;
  Permission_identity := Ideal.identityOf;
  AES_decrypt := Ideal.unseal;
  ecc_isValidPrivate := @ecc_isValidPrivate Ideal.collaborators;
  ecc_sign := @ecc_sign Ideal.collaborators;
  IdentityService_identityPermission := Ideal.identityPermission;
  IdentityService_getOrRequestIdentity := fun _ _ _ v =>
    match keychain v with
    | object k => (Keychain_findIdentity "A" k, true)
    | ciphertext _ => (None, false)
    end;
  SignatureService_requestSignature := fun _ _ =>
    {| recorded := []; granted := []; answer := None |};
  TimingHelpers_minutes := fun m => m * 60 * 1000;
  apis_app_version := "0.0.0"
|}.


(* ------------------------------------------------------------------ *)
(** ** Vocabulary of the properties *)

Section Vocabulary.
Context {X : Collaborators}.

(** The vault [StorageService.get()] resolves to. *)
Definition stored (w : World) : Scatter Ciphertext :=
  match storage w with
  | Some scatter => scatter
  | None => Scatter_placeholder
  end.

(** The interval [load] syncs from the stored settings. *)
Definition synced (w : World) : World :=
  with_inactivityInterval (Settings_inactivityInterval (settings (stored w))) w.

(** The keychain as [update] leaves it: every keypair, then every
    identity, encrypted under the seed. *)
Definition field_encrypted (s : string) (k : Keychain) : Keychain :=
  with_identities (map (fun id => Identity_encrypt id s) (identities k))
    (with_keypairs (map (fun keypair => Keypair_encrypt keypair s) (keypairs k)) k).

(** The answers with which the user interface declines a prompt. *)
Definition declines (approved : Response Ciphertext) : bool :=
  match approved with
  | RBool false | RError _ => true
  | _ => false
  end.

(** The prompt [requestAddNetwork] opens for a new network. *)
Definition addNetworkPrompt (domain : string) (network : Network)
    (scatter : Scatter Ciphertext) : Prompt :=
  Prompt_new REQUEST_ADD_NETWORK_PROMPT domain network network
    (onAddNetwork scatter network).

(** The loaded vault with the network put in front of [settings.networks]. *)
Definition with_network (network : Network) (scatter : Scatter Ciphertext)
    : Scatter Ciphertext :=
  with_settings (with_networks (network :: networks (settings scatter))
                   (settings scatter)) scatter.

(** An event that stores a non-empty passphrase. *)
Definition sets_passphrase (e : Event) : bool :=
  match e with
  | Dispatch (SET_SEED payload) => has_length payload
  | _ => false
  end.

(** Once empty, the seed stays empty. *)
Definition stays_locked (w w' : World) : Prop := seed w = "" -> seed w' = "".

(** No handler touches the timers, the clock or [timeoutLocker]. *)
Definition same_timers (w w' : World) : Prop :=
  timers w' = timers w /\ timeoutLocker w' = timeoutLocker w /\
  clock w' = clock w /\ nextHandle w' = nextHandle w.

(** The inactivity interval is zero whenever a request is dispatched. *)
Fixpoint zero_at_dispatch (w : World) (events : list Event) : Prop :=
  match events with
  | [] => True
  | e :: rest =>
      match e with
      | Dispatch _ => inactivityInterval w = 0
      | _ => True
      end /\ zero_at_dispatch (step w e) rest
  end.

(** Every pending timer is the one [timeoutLocker] refers to. *)
Definition tracked (w : World) : Prop :=
  forall handle deadline,
    In (handle, deadline) (timers w) -> timeoutLocker w = Some handle.

(** The checksums of the permissions of a keychain, in order. *)
Definition checksums (k : Keychain) : list string :=
  map Permission_checksum (permissions k).

(** A sequence of calls of [addPermissions]. *)
Definition grants (w : World) (batches : list (list Permission)) : World :=
  fold_left (fun w perms => exec (addPermissions perms) w) batches w.

(** A piece of script keeps a relation between the world before and the
    world after it. *)
Definition kept (R : World -> World -> Prop) {A} (m : Eff A) : Prop :=
  forall w, R w (snd (m w)).

(** The requests whose handlers contain no call of [update] and no
    [storage.local.clear()]. *)
Definition reads_only (m : InternalMessage) : bool :=
  match m with
  | SET_SEED _ | IS_UNLOCKED | LOAD | PUB_TO_PRIV _ | IDENTITY_FROM_PERMISSIONS _
  | REQUEST_ADD_NETWORK _ _ | REQUEST_GET_VERSION | REQUEST_VERSION_UPDATE _
  | AUTHENTICATE _ _ | UNRECOGNISED _ => true
  | _ => false
  end.

(** What a request is answered while no passphrase is held. *)
Definition locked_answer (w : World) (m : InternalMessage)
    : list (Response Ciphertext) :=
  match m with
  | SET_SEED _ | SET_TIMEOUT _ => [RBool true]
  | IS_UNLOCKED => [RBool false]
  | LOAD => [RScatter (stored w)]
  | IDENTITY_FROM_PERMISSIONS _ => [RNull]
  | REQUEST_GET_VERSION => [RString apis_app_version]
  | REQUEST_VERSION_UPDATE _ | UNRECOGNISED _ => []
  | _ => [RError Error_locked]
  end.

(** The seed is what it was, or has been cleared. *)
Definition kept_or_cleared (w w' : World) : Prop :=
  seed w' = seed w \/ seed w' = "".

(** The storage is what it was. *)
Definition same_storage (w w' : World) : Prop := storage w' = storage w.


(** The requests whose handlers touch neither the seed nor the interval
    nor the storage: requestGetVersion, requestVersionUpdate and an
    unrecognised type. *)
Definition passive (m : InternalMessage) : bool :=
  match m with
  | REQUEST_GET_VERSION | REQUEST_VERSION_UPDATE _ | UNRECOGNISED _ => true
  | _ => false
  end.

(** Requests arriving one after the other, each followed by an idle gap. *)
Definition spaced (arrivals : list (InternalMessage * Z)) : list Event :=
  flat_map (fun a => [Dispatch (fst a); Elapse (snd a)]) arrivals.

End Vocabulary.

(* ------------------------------------------------------------------ *)
(** ** Properties *)

Section Properties.
Context {X : Collaborators}.

Lemma has_length_empty (s : string) : has_length s = false <-> s = "".
Proof.
  destruct s; cbn; split; intro H; try reflexivity; discriminate.
Qed.

Lemma truthy_has_length (s : string) : truthy s = has_length s.
Proof. destruct s; reflexivity. Qed.

(** *** The lock guard *)

Lemma lockGuard_locked (sendResponse : Response Ciphertext -> Eff unit)
    (cb : Eff unit) (w : World) :
  seed w = "" ->
  lockGuard sendResponse cb w =
  sendResponse (RError Error_locked) (with_prompts (prompts w ++ [scatterIsLocked]) w).
Proof.
  intro H. unfold lockGuard, bind, gets. rewrite H. reflexivity.
Qed.

Lemma lockGuard_open (sendResponse : Response Ciphertext -> Eff unit)
    (cb : Eff unit) (w : World) :
  has_length (seed w) = true ->
  lockGuard sendResponse cb w = cb w.
Proof.
  intro H. unfold lockGuard, bind, gets. rewrite H. reflexivity.
Qed.

Lemma handle_locked (sendResponse : Response Ciphertext -> Eff unit)
    (m : InternalMessage) (w : World) :
  privileged m = true ->
  seed w = "" ->
  handle sendResponse m w =
  sendResponse (RError Error_locked) (with_prompts (prompts w ++ [scatterIsLocked]) w).
Proof.
  intros Hp Hs.
  destruct m; try discriminate Hp; cbn [handle];
    unfold update, publicToPrivate, destroy, getOrRequestIdentity,
      authenticate, requestSignature, requestAddNetwork;
    apply lockGuard_locked; exact Hs.
Qed.

End Properties.

(* ------------------------------------------------------------------ *)
(** ** Frame reasoning

    A relation between the world before and after that is a preorder and
    admits every primitive change a handler can make (clearing the seed,
    syncing the interval, writing the storage, answering, prompting) is
    kept by every handler.  No handler touches the timer table, the clock
    or [timeoutLocker]; only [setSeed] stores a seed of the caller's
    choosing, and it is left to the user of the section. *)

Section Frame.
Context {X : Collaborators}.
Variable R : World -> World -> Prop.
Hypothesis R_refl : forall w, R w w.
Hypothesis R_trans : forall a b c, R a b -> R b c -> R a c.
Hypothesis R_lock : forall w, R w (with_seed "" w).
Hypothesis R_interval : forall i w, R w (with_inactivityInterval i w).
Hypothesis R_storage : forall s w, R w (with_storage s w).
Hypothesis R_responses : forall l w, R w (with_responses l w).
Hypothesis R_prompts : forall l w, R w (with_prompts l w).

Local Abbreviation keeps := (kept R).

Lemma keeps_ret {A} (a : A) : keeps (ret a).
Proof. intro w. apply R_refl. Qed.

Lemma keeps_throw {A} : keeps (@throw X A).
Proof. intro w. apply R_refl. Qed.

Lemma keeps_gets {A} (f : World -> A) : keeps (gets f).
Proof. intro w. apply R_refl. Qed.

Lemma keeps_modify (f : World -> World) :
  (forall w, R w (f w)) -> keeps (modify f).
Proof. intros H w. apply H. Qed.

Lemma keeps_bind {A B} (m : Eff A) (k : A -> Eff B) :
  keeps m -> (forall a, keeps (k a)) -> keeps (bind m k).
Proof.
  intros Hm Hk w. unfold bind. specialize (Hm w).
  destruct (m w) as [[a|] w']; cbn in *.
  - eapply R_trans; [exact Hm | apply Hk].
  - exact Hm.
Qed.

Lemma keeps_try_catch {A} (body handler : Eff A) :
  keeps body -> keeps handler -> keeps (try_catch body handler).
Proof.
  intros Hb Hh w. unfold try_catch. specialize (Hb w).
  destruct (body w) as [[a|] w']; cbn in *.
  - exact Hb.
  - eapply R_trans; [exact Hb | apply Hh].
Qed.

Lemma keeps_promise_then (callback : Eff unit) :
  keeps callback -> keeps (promise_then callback).
Proof. intros H w. apply H. Qed.

Lemma keeps_orThrow {A} (o : option A) : keeps (orThrow o).
Proof. destruct o; [apply keeps_ret | apply keeps_throw]. Qed.

Ltac keeps_tac :=
  repeat first
    [ assumption
    | match goal with
      | H : forall r, keeps (?f r) |- keeps (?f _) => apply H
      | |- keeps (ret _) => apply keeps_ret
      | |- keeps throw => apply keeps_throw
      | |- keeps (gets _) => apply keeps_gets
      | |- keeps (orThrow _) => apply keeps_orThrow
      | |- keeps (promise_then _) => apply keeps_promise_then
      | |- keeps (try_catch _ _) => apply keeps_try_catch
      | |- keeps (bind _ _) => apply keeps_bind; [ | intro ]
      | |- keeps (modify _) =>
          apply keeps_modify; intro;
          solve [ apply R_lock | apply R_interval | apply R_storage
                | apply R_responses | apply R_prompts ]
      | |- keeps (if ?b then _ else _) => destruct b
      | |- keeps (match ?x with _ => _ end) => destruct x
      end
    | progress cbv beta zeta ].

Lemma respond_keeps (r : Response Ciphertext) : keeps (respond r).
Proof. unfold respond. keeps_tac. Qed.

Lemma lockGuard_keeps sendResponse (cb : Eff unit) :
  (forall r, keeps (sendResponse r)) -> keeps cb -> keeps (lockGuard sendResponse cb).
Proof.
  intros Hs Hc. unfold lockGuard, NotificationService_open. keeps_tac.
Qed.

Lemma load_keeps (sendResponse : Scatter Ciphertext -> Eff unit) :
  (forall v, keeps (sendResponse v)) -> keeps (load sendResponse).
Proof.
  intros Hs. unfold load, StorageService_get, decrypt. keeps_tac.
Qed.

Lemma update_keeps sendResponse (scatter : Scatter Ciphertext) :
  (forall r, keeps (sendResponse r)) -> keeps (update sendResponse scatter).
Proof.
  intros Hs. unfold update. apply lockGuard_keeps; [exact Hs|].
  unfold keychain_object, StorageService_save, decrypt. keeps_tac.
Qed.

Lemma update_silent_keeps (scatter : Scatter Ciphertext) :
  keeps (update (fun _ => ret tt) scatter).
Proof. apply update_keeps. intro. apply keeps_ret. Qed.

Lemma addHistory_keeps type data : keeps (addHistory type data).
Proof.
  unfold addHistory. apply load_keeps. intro v.
  apply keeps_bind; [apply keeps_gets | intro; apply update_silent_keeps].
Qed.

Lemma addPermissions_keeps perms : keeps (addPermissions perms).
Proof.
  unfold addPermissions. apply load_keeps. intro v.
  apply keeps_bind; [ | intro; apply update_silent_keeps].
  unfold keychain_object. keeps_tac.
Qed.

Lemma load_resolved_keeps scatter (sendResponse : Scatter Ciphertext -> Eff unit) :
  (forall v, keeps (sendResponse v)) -> keeps (load_resolved scatter sendResponse).
Proof.
  intros Hs. unfold load_resolved, decrypt. keeps_tac.
Qed.

Lemma addHistory_resolved_keeps scatter type data :
  keeps (addHistory_resolved scatter type data).
Proof.
  unfold addHistory_resolved. apply load_resolved_keeps. intro v.
  apply keeps_bind; [apply keeps_gets | intro; apply update_silent_keeps].
Qed.

Lemma addPermissions_resolved_keeps scatter perms :
  keeps (addPermissions_resolved scatter perms).
Proof.
  unfold addPermissions_resolved. apply load_resolved_keeps. intro v.
  apply keeps_bind; [ | intro; apply update_silent_keeps].
  unfold keychain_object. keeps_tac.
Qed.

Lemma addHistories_keeps events : keeps (addHistories events).
Proof.
  induction events as [|[type data] rest IH]; cbn [addHistories].
  - apply keeps_ret.
  - apply keeps_bind; [apply addHistory_keeps | intro; exact IH].
Qed.

Lemma requestAddNetwork_approved_keeps sendResponse scatter network approved :
  (forall r, keeps (sendResponse r)) ->
  keeps (requestAddNetwork_approved sendResponse scatter network approved).
Proof.
  intros Hs. unfold requestAddNetwork_approved.
  destruct approved as [[|]| | | | |]; try apply Hs; try apply keeps_throw;
    apply update_keeps; intro; apply Hs.
Qed.

Lemma Prompt_respond_keeps sendResponse p approved :
  (forall r, keeps (sendResponse r)) ->
  keeps (Prompt_respond sendResponse p approved).
Proof.
  intros Hs. unfold Prompt_respond.
  destruct p as [|? ? ? ? [scatter network|]]; try apply keeps_ret.
  apply requestAddNetwork_approved_keeps, Hs.
Qed.

Lemma handle_keeps sendResponse (m : InternalMessage) :
  (forall r, keeps (sendResponse r)) ->
  (forall p, m <> SET_SEED p) ->
  keeps (handle sendResponse m).
Proof.
  intros Hs Hm. destruct m; cbn [handle].
  - exfalso. eapply Hm. reflexivity.
  - unfold setTimeout. apply keeps_bind; [ | intro; apply Hs].
    apply load_keeps. intro v.
    apply keeps_bind; [apply keeps_modify; intro; apply R_interval | intro].
    apply keeps_bind; [apply keeps_gets | intro; apply update_silent_keeps].
  - unfold isUnlocked, StorageService_get, decrypt. keeps_tac.
  - apply load_keeps. intro; apply Hs.
  - apply update_keeps, Hs.
  - unfold publicToPrivate. apply lockGuard_keeps; [exact Hs|].
    unfold StorageService_get, decrypt, keychain_object. keeps_tac.
  - unfold destroy, storage_local_clear. apply lockGuard_keeps; [exact Hs|].
    keeps_tac.
  - unfold identityFromPermissions.
    apply keeps_bind; [apply keeps_gets | intro s].
    destruct (negb (has_length s)); [apply Hs|].
    apply load_keeps. intro v. keeps_tac.
  - unfold getOrRequestIdentity. apply lockGuard_keeps; [exact Hs|].
    apply load_keeps. intro v. cbv zeta.
    destruct (IdentityService_getOrRequestIdentity _ _ _ _) as [[identity|] fromPermission];
      [ | apply Hs].
    apply keeps_bind; [ | intro; apply Hs].
    destruct (negb fromPermission); [ | apply keeps_ret].
    unfold StorageService_get.
    apply keeps_bind; [apply keeps_gets | intro].
    apply keeps_bind; [apply keeps_gets | intro].
    apply keeps_bind; [apply keeps_gets | intro].
    apply keeps_bind; [apply addHistory_resolved_keeps | intro].
    apply addPermissions_resolved_keeps.
  - unfold requestSignature. apply lockGuard_keeps; [exact Hs|].
    apply load_keeps. intro v. cbv zeta.
    apply keeps_bind; [apply addHistories_keeps | intro].
    apply keeps_bind.
    + destruct (granted _); [apply keeps_ret | apply addPermissions_keeps].
    + intro. destruct (answer _); [apply Hs | apply keeps_ret].
  - unfold requestAddNetwork, NotificationService_open.
    apply lockGuard_keeps; [exact Hs|].
    apply load_keeps. intro v. keeps_tac.
  - apply Hs.
  - unfold requestVersionUpdate, NotificationService_open. keeps_tac.
  - unfold authenticate. apply lockGuard_keeps; [exact Hs|].
    apply load_keeps. intro v. unfold keychain_object. keeps_tac.
  - apply keeps_ret.
Qed.

End Frame.

(* ------------------------------------------------------------------ *)
(** ** How the handlers run *)

Section Running.
Context {X : Collaborators}.

Lemma load_unlocked (k : Scatter Ciphertext -> Eff unit) (w : World) scatter :
  has_length (seed w) = true ->
  Scatter_decrypt (stored w) (seed w) = Some scatter ->
  load k w = (Normal tt, exec (k scatter) (synced w)).
Proof.
  intros Hs Hd.
  unfold load, promise_then, bind, gets, modify, StorageService_get, decrypt, exec, synced.
  cbn. fold (stored w). rewrite Hs, Hd. reflexivity.
Qed.

Lemma load_locked (k : Scatter Ciphertext -> Eff unit) (w : World) :
  seed w = "" ->
  load k w = (Normal tt, exec (k (stored w)) (synced w)).
Proof.
  intros Hs.
  unfold load, promise_then, bind, gets, modify, StorageService_get, decrypt, exec, synced.
  cbn. fold (stored w). rewrite Hs. reflexivity.
Qed.

Lemma load_throws (k : Scatter Ciphertext -> Eff unit) (w : World) :
  has_length (seed w) = true ->
  Scatter_decrypt (stored w) (seed w) = None ->
  load k w = (Normal tt, synced w).
Proof.
  intros Hs Hd.
  unfold load, promise_then, bind, gets, modify, StorageService_get, decrypt, exec, synced.
  cbn. fold (stored w). rewrite Hs, Hd. reflexivity.
Qed.

Lemma update_unlocked sendResponse (scatter : Scatter Ciphertext) (k : Keychain) (w : World) :
  has_length (seed w) = true ->
  keychain scatter = object k ->
  let cleartext := with_keychain (object (field_encrypted (seed w) k)) scatter in
  let persisted := Scatter_encrypt cleartext (seed w) in
  update sendResponse scatter w =
  (Normal tt,
   match Scatter_decrypt persisted (seed w) with
   | Some view => exec (sendResponse (RScatter view)) (with_storage (Some persisted) w)
   | None => with_storage (Some persisted) w
   end).
Proof.
  intros Hs Hk. cbv zeta.
  unfold update. rewrite (lockGuard_open _ _ _ Hs).
  unfold keychain_object, Scatter_fromJson, StorageService_save, promise_then,
    bind, gets, modify, decrypt, exec, field_encrypted.
  rewrite Hk. cbn.
  destruct (Scatter_decrypt _ _); reflexivity.
Qed.

(** The auto-lock check completes normally and touches nothing but the
    timer table and [timeoutLocker]. *)
Lemma checkAutoLock_frame (w : World) :
  fst (checkAutoLock w) = Normal tt /\
  seed (exec checkAutoLock w) = seed w /\
  inactivityInterval (exec checkAutoLock w) = inactivityInterval w /\
  clock (exec checkAutoLock w) = clock w /\
  storage (exec checkAutoLock w) = storage w /\
  responses (exec checkAutoLock w) = responses w /\
  prompts (exec checkAutoLock w) = prompts w.
Proof.
  unfold exec, checkAutoLock, bind, gets, modify, window_clearTimeout,
    window_setTimeout, ret.
  destruct (inactivityInterval w =? 0); [cbn; auto 8|].
  destruct (timeoutLocker w); cbn; destruct (truthy (seed w)); cbn; auto 8.
Qed.

Lemma dispenseMessage_exec sendResponse (m : InternalMessage) (w : World) :
  exec (dispenseMessage sendResponse m) w =
  exec (handle sendResponse m) (exec checkAutoLock w).
Proof.
  unfold exec at 1 3, dispenseMessage, bind.
  destruct (checkAutoLock_frame w) as [H _].
  destruct (checkAutoLock w) as [c w']. cbn in H. subst c. reflexivity.
Qed.

End Running.

(* ------------------------------------------------------------------ *)
(** ** Session lock and decryption failure *)

Section Lock.
Context {X : Collaborators}.

(** C1 (as amended): in the lock-status check [isUnlocked], when a
    passphrase is held and decrypting the stored document with it throws,
    the passphrase is cleared and the response is [false]; nothing else
    changes. *)
Theorem isUnlocked_decrypt_failure_locks (w : World) :
  has_length (seed w) = true ->
  Scatter_decrypt (stored w) (seed w) = None ->
  exec (isUnlocked respond) w =
  with_responses (responses w ++ [RBool false]) (with_seed "" w).
Proof.
  intros Hs Hd.
  unfold exec, isUnlocked, promise_then, try_catch, bind, gets, modify, respond,
    StorageService_get, decrypt.
  unfold stored in Hd. cbn. rewrite Hs. cbn. rewrite Hd. reflexivity.
Qed.

Lemma dispatch_locked (m : InternalMessage) (w : World) :
  privileged m = true ->
  seed w = "" ->
  step w (Dispatch m) =
    with_responses (responses w ++ [RError Error_locked])
      (with_prompts (prompts w ++ [scatterIsLocked]) (exec checkAutoLock w)).
Proof.
  intros Hp Hs. cbn [step]. rewrite dispenseMessage_exec.
  destruct (checkAutoLock_frame w) as (_ & Hw & _ & _ & _ & Hr & Hq).
  unfold exec at 1. rewrite handle_locked by (exact Hp || congruence).
  unfold respond, modify. cbn. rewrite Hr, Hq. reflexivity.
Qed.

(** C2: a privileged operation (update, publicToPrivate, destroy,
    getOrRequestIdentity, authenticate, requestSignature,
    requestAddNetwork) that finds no passphrase held opens the lock notice
    and answers with the [locked] error; nothing else of the world changes,
    so its body has not run.  Dispatched, it differs from the auto-lock
    check alone by exactly that notice and that answer. *)
Theorem privileged_rejected_when_locked (m : InternalMessage) (w : World) :
  privileged m = true ->
  seed w = "" ->
  exec (handle respond m) w =
    with_responses (responses w ++ [RError Error_locked])
      (with_prompts (prompts w ++ [scatterIsLocked]) w)
  /\ step w (Dispatch m) =
    with_responses (responses w ++ [RError Error_locked])
      (with_prompts (prompts w ++ [scatterIsLocked]) (exec checkAutoLock w)).
Proof.
  intros Hp Hs. split.
  - unfold exec. rewrite (handle_locked _ _ _ Hp Hs). reflexivity.
  - apply dispatch_locked; assumption.
Qed.

End Lock.

(** C1 (as stated) fails: once a passphrase that does not decrypt the
    stored document has been set, the vault reads [load] and
    [publicToPrivate] neither clear it nor answer (the only answer recorded
    is the [true] of [setSeed]); the lock-status check does both. *)
Lemma load_decrypt_failure_keeps_seed :
  let w := step Ideal.locked (Dispatch (SET_SEED "wrong-seed")) in
  Scatter_decrypt (stored w) (seed w) = None /\
  seed (step w (Dispatch LOAD)) = "wrong-seed" /\
  responses (step w (Dispatch LOAD)) = [RBool true] /\
  seed (step w (Dispatch (PUB_TO_PRIV "A"))) = "wrong-seed" /\
  responses (step w (Dispatch (PUB_TO_PRIV "A"))) = [RBool true] /\
  seed (step w (Dispatch IS_UNLOCKED)) = "" /\
  responses (step w (Dispatch IS_UNLOCKED)) = [RBool true; RBool false].
Proof. cbv zeta. repeat split; vm_compute; reflexivity. Qed.

Lemma isUnlocked_decrypt_failure_locks_witness :
  let w := Ideal.mistaken in
  has_length (seed w) = true /\
  Scatter_decrypt (stored w) (seed w) = None /\
  exec (isUnlocked respond) w =
  with_responses (responses w ++ [RBool false]) (with_seed "" w).
Proof.
  cbv zeta. split; [reflexivity | split; [reflexivity | ]].
  apply (isUnlocked_decrypt_failure_locks Ideal.mistaken); reflexivity.
Defined.

Lemma privileged_rejected_when_locked_witness :
  let w := Ideal.locked in
  privileged DESTROY = true /\ seed w = "" /\
  exec (handle respond DESTROY) w =
    with_responses [RError Error_locked] (with_prompts [scatterIsLocked] w).
Proof.
  cbv zeta. split; [reflexivity | split; [reflexivity | ]].
  apply (privileged_rejected_when_locked DESTROY Ideal.locked); reflexivity.
Defined.

(* ------------------------------------------------------------------ *)
(** ** The update cycle and the private-key operations *)

Section Vault.
Context {X : Collaborators}.

(** C3: under a held passphrase, [update] of a cleartext vault encrypts
    the private key of every keypair and of every identity, then encrypts
    the document, then saves it, then decrypts it and answers with it: the
    storage holds the encrypted document, and (the cipher undoing itself)
    the answer is the vault whose private keys are the field-encrypted
    ones. *)
Theorem update_cycle (scatter : Scatter Ciphertext) (k : Keychain) (w : World) :
  has_length (seed w) = true ->
  keychain scatter = object k ->
  let fields :=
    {| keypairs := map (fun keypair => Keypair_encrypt keypair (seed w)) (keypairs k);
       identities := map (fun id => Identity_encrypt id (seed w)) (identities k);
       permissions := permissions k |} in
  let cleartext := with_keychain (object fields) scatter in
  let persisted := Scatter_encrypt cleartext (seed w) in
  Scatter_decrypt persisted (seed w) = Some cleartext ->
  storage (exec (update respond scatter) w) = Some persisted /\
  exec (update respond scatter) w =
    with_responses (responses w ++ [RScatter cleartext])
      (with_storage (Some persisted) w).
Proof.
  intros Hs Hk fields cleartext persisted Hd.
  unfold exec. rewrite (update_unlocked _ _ _ _ Hs Hk).
  change (with_keychain (object (field_encrypted (seed w) k)) scatter) with cleartext.
  fold persisted. rewrite Hd. cbn. auto.
Qed.

(** C4: under a held passphrase that decrypts the stored vault,
    [publicToPrivate] answers [null] when no keypair of the keychain has
    the public key, and answers the private key of the first keypair that
    has it, decrypted with the passphrase; either way nothing but the
    answer is produced (no error, no prompt, no change of state). *)
Theorem publicToPrivate_lookup (publicKey : string) (w : World)
    (scatter : Scatter Ciphertext) (k : Keychain) :
  has_length (seed w) = true ->
  Scatter_decrypt (stored w) (seed w) = Some scatter ->
  keychain scatter = object k ->
  ((forall keypair, In keypair (keypairs k) -> Keypair_publicKey keypair <> publicKey) ->
   exec (publicToPrivate respond publicKey) w =
   with_responses (responses w ++ [RNull]) w)
  /\
  (forall keypair privateKey,
     find (fun x => String.eqb (Keypair_publicKey x) publicKey) (keypairs k)
       = Some keypair ->
     AES_decrypt (Keypair_privateKey keypair) (seed w) = Some privateKey ->
     exec (publicToPrivate respond publicKey) w =
     with_responses (responses w ++ [RString privateKey]) w).
Proof.
  intros Hs Hd Hk.
  assert (E : exec (publicToPrivate respond publicKey) w =
              match find (fun x => String.eqb (Keypair_publicKey x) publicKey)
                      (keypairs k) with
              | Some keypair =>
                  match AES_decrypt (Keypair_privateKey keypair) (seed w) with
                  | Some privateKey =>
                      with_responses (responses w ++ [RString privateKey]) w
                  | None => w
                  end
              | None => with_responses (responses w ++ [RNull]) w
              end).
  { unfold exec, publicToPrivate. rewrite (lockGuard_open _ _ _ Hs).
    unfold promise_then, bind, gets, StorageService_get, decrypt, keychain_object.
    unfold stored in Hd. cbn. rewrite Hd. cbn. rewrite Hk. cbn.
    destruct (find _ _) as [keypair|]; [|reflexivity].
    cbn. destruct (AES_decrypt _ _); reflexivity. }
  split.
  - intro Hnone. rewrite E.
    destruct (find _ _) as [keypair|] eqn:F; [|reflexivity].
    apply find_some in F. destruct F as [Hin Heq].
    apply String.eqb_eq in Heq. exfalso. exact (Hnone _ Hin Heq).
  - intros keypair privateKey F Hp. rewrite E, F, Hp. reflexivity.
Qed.

(** C5: under a held passphrase that decrypts the stored vault,
    [authenticate] answers the [identity_missing] error when no identity
    of the keychain has the public key; when the first such identity
    decrypts to a private key that [ecc.isValidPrivate] refuses, the
    [malicious_event] error; otherwise the signature of the domain under
    that private key. *)
Theorem authenticate_outcomes (publicKey domain : string) (w : World)
    (scatter : Scatter Ciphertext) (k : Keychain) :
  has_length (seed w) = true ->
  Scatter_decrypt (stored w) (seed w) = Some scatter ->
  keychain scatter = object k ->
  ((forall identity, In identity (identities k) ->
                     Identity_publicKey identity <> publicKey) ->
   exec (authenticate respond publicKey domain) w =
   with_responses (responses w ++ [RError Error_identityMissing]) (synced w))
  /\
  (forall identity decrypted,
     Keychain_findIdentity publicKey k = Some identity ->
     Identity_decrypt identity (seed w) = Some decrypted ->
     exec (authenticate respond publicKey domain) w =
     with_responses
       (responses w ++
          [if ecc_isValidPrivate (Identity_privateKey decrypted)
           then RString (ecc_sign domain (Identity_privateKey decrypted))
           else RError Error_maliciousEvent])
       (synced w)).
Proof.
  intros Hs Hd Hk.
  assert (E : exec (authenticate respond publicKey domain) w =
              match Keychain_findIdentity publicKey k with
              | None => with_responses (responses w ++ [RError Error_identityMissing])
                          (synced w)
              | Some identity =>
                  match Identity_decrypt identity (seed w) with
                  | Some decrypted =>
                      with_responses
                        (responses w ++
                           [if ecc_isValidPrivate (Identity_privateKey decrypted)
                            then RString (ecc_sign domain (Identity_privateKey decrypted))
                            else RError Error_maliciousEvent])
                        (synced w)
                  | None => synced w
                  end
              end).
  { unfold exec, authenticate. rewrite (lockGuard_open _ _ _ Hs).
    rewrite (load_unlocked _ _ _ Hs Hd).
    unfold exec, bind, gets, keychain_object. rewrite Hk. cbn.
    destruct (Keychain_findIdentity publicKey k) as [identity|]; [|reflexivity].
    cbn. destruct (Identity_decrypt identity (seed w)) as [decrypted|]; [|reflexivity].
    cbn. destruct (ecc_isValidPrivate _); reflexivity. }
  split.
  - intro Hnone. rewrite E.
    destruct (Keychain_findIdentity publicKey k) as [identity|] eqn:F; [|reflexivity].
    apply find_some in F. destruct F as [Hin Heq].
    apply String.eqb_eq in Heq. exfalso. exact (Hnone _ Hin Heq).
  - intros identity decrypted F Hp. rewrite E, F, Hp. reflexivity.
Qed.

End Vault.

Lemma update_cycle_witness :
  exec (update respond (with_keychain (object Ideal.imported) Ideal.opened))
    (with_storage None Ideal.unlocked) =
  with_responses [RScatter Ideal.opened] Ideal.unlocked.
Proof.
  apply (update_cycle (with_keychain (object Ideal.imported) Ideal.opened)
           Ideal.imported (with_storage None Ideal.unlocked)); reflexivity.
Defined.

Lemma publicToPrivate_lookup_witness :
  exec (publicToPrivate respond "B") Ideal.unlocked =
    with_responses [RNull] Ideal.unlocked /\
  exec (publicToPrivate respond "A") Ideal.unlocked =
    with_responses [RString "5Kpriv"] Ideal.unlocked.
Proof.
  split.
  - destruct (publicToPrivate_lookup "B" Ideal.unlocked Ideal.opened Ideal.keys
                eq_refl eq_refl eq_refl) as [absent _].
    apply absent. intros keypair [<- | []]. cbn. discriminate.
  - destruct (publicToPrivate_lookup "A" Ideal.unlocked Ideal.opened Ideal.keys
                eq_refl eq_refl eq_refl) as [_ present].
    exact (present _ _ eq_refl eq_refl).
Defined.

Lemma authenticate_outcomes_witness :
  exec (authenticate respond "B" "dapp.example") Ideal.unlocked =
    with_responses [RError Error_identityMissing] Ideal.unlocked /\
  exec (authenticate respond "M" "dapp.example") Ideal.unlocked =
    with_responses [RError Error_maliciousEvent] Ideal.unlocked /\
  exec (authenticate respond "A" "dapp.example") Ideal.unlocked =
    with_responses [RString "SIG(dapp.example)5Kpriv"] Ideal.unlocked.
Proof.
  split; [ | split ].
  - destruct (authenticate_outcomes "B" "dapp.example" Ideal.unlocked
                Ideal.opened Ideal.keys eq_refl eq_refl eq_refl) as [absent _].
    apply absent. intros identity [<- | [<- | []]]; cbn; discriminate.
  - destruct (authenticate_outcomes "M" "dapp.example" Ideal.unlocked
                Ideal.opened Ideal.keys eq_refl eq_refl eq_refl) as [_ present].
    exact (present _ _ eq_refl eq_refl).
  - destruct (authenticate_outcomes "A" "dapp.example" Ideal.unlocked
                Ideal.opened Ideal.keys eq_refl eq_refl eq_refl) as [_ present].
    exact (present _ _ eq_refl eq_refl).
Defined.

(* ------------------------------------------------------------------ *)
(** ** Networks and identities by permission *)

Section Requests.
Context {X : Collaborators}.

Lemma unique_eqb_eq (a b : string * Z) : unique_eqb a b = true <-> a = b.
Proof.
  destruct a as [h p], b as [h' p']. unfold unique_eqb. cbn.
  rewrite andb_true_iff, String.eqb_eq, Z.eqb_eq.
  split; [intros [-> ->]; reflexivity | intro E; inversion E; auto].
Qed.

(** C8: under a held passphrase that decrypts the stored vault,
    [requestAddNetwork] (1) answers [true] and opens no prompt when a
    network of [settings.networks] has the uniqueness key of the requested
    one; (2) otherwise opens the add-network prompt and neither answers nor
    writes the storage; (3) a declining answer to that prompt is passed on
    and nothing is written; (4) an approving answer, under a held
    passphrase, runs the update cycle on the vault with the network added
    in front, and passes the approval on. *)
Theorem requestAddNetwork_outcomes (domain : string) (network : Network)
    (w : World) (scatter : Scatter Ciphertext) :
  has_length (seed w) = true ->
  Scatter_decrypt (stored w) (seed w) = Some scatter ->
  ((exists n, In n (networks (settings scatter)) /\
              Network_unique n = Network_unique network) ->
   exec (requestAddNetwork respond domain network) w =
   with_responses (responses w ++ [RBool true]) (synced w))
  /\
  ((forall n, In n (networks (settings scatter)) ->
              Network_unique n <> Network_unique network) ->
   exec (requestAddNetwork respond domain network) w =
   with_prompts (prompts w ++ [addNetworkPrompt domain network scatter]) (synced w))
  /\
  (forall w' approved,
     declines approved = true ->
     exec (Prompt_respond respond (addNetworkPrompt domain network scatter) approved) w' =
     with_responses (responses w' ++ [approved]) w')
  /\
  (forall w' approved k,
     declines approved = false ->
     approved <> RNull ->
     has_length (seed w') = true ->
     keychain scatter = object k ->
     let cleartext :=
       with_keychain (object (field_encrypted (seed w') k))
         (with_network network scatter) in
     let persisted := Scatter_encrypt cleartext (seed w') in
     networks (settings cleartext) = network :: networks (settings scatter) /\
     storage (exec (Prompt_respond respond (addNetworkPrompt domain network scatter)
                      approved) w') = Some persisted /\
     (forall view, Scatter_decrypt persisted (seed w') = Some view ->
        exec (Prompt_respond respond (addNetworkPrompt domain network scatter)
                approved) w' =
        with_responses (responses w' ++ [approved])
          (with_storage (Some persisted) w'))).
Proof.
  intros Hs Hd.
  assert (E : exec (requestAddNetwork respond domain network) w =
              match find (fun _network =>
                            unique_eqb (Network_unique _network) (Network_unique network))
                         (networks (settings scatter)) with
              | Some _ => with_responses (responses w ++ [RBool true]) (synced w)
              | None => with_prompts
                          (prompts w ++ [addNetworkPrompt domain network scatter])
                          (synced w)
              end).
  { unfold exec, requestAddNetwork. rewrite (lockGuard_open _ _ _ Hs).
    rewrite (load_unlocked _ _ _ Hs Hd). unfold Network_fromJson. cbn.
    destruct (find _ _); reflexivity. }
  split; [ | split; [ | split ] ].
  - intros (n & Hin & Hu). rewrite E.
    destruct (find _ _) eqn:F; [reflexivity|].
    pose proof (find_none _ _ F _ Hin) as Hn. cbn in Hn.
    apply unique_eqb_eq in Hu. congruence.
  - intros Hnone. rewrite E.
    destruct (find _ _) as [n|] eqn:F; [|reflexivity].
    apply find_some in F. destruct F as [Hin Hu].
    apply unique_eqb_eq in Hu. exfalso. exact (Hnone _ Hin Hu).
  - intros w' approved Hdec.
    destruct approved as [[|]| | | | |]; try discriminate Hdec; reflexivity.
  - intros w' approved k Hdec Hnull Hs' Hk cleartext persisted.
    assert (Hu : exec (Prompt_respond respond (addNetworkPrompt domain network scatter)
                         approved) w' =
                 match Scatter_decrypt persisted (seed w') with
                 | Some _ => with_responses (responses w' ++ [approved])
                               (with_storage (Some persisted) w')
                 | None => with_storage (Some persisted) w'
                 end).
    { transitivity
        (exec (update (fun _ => respond approved) (with_network network scatter)) w').
      - destruct approved as [[|]| | | | |];
          try discriminate; try congruence; reflexivity.
      - unfold exec.
        rewrite (update_unlocked _ (with_network network scatter) k w' Hs' Hk).
        reflexivity. }
    split; [reflexivity | split].
    + rewrite Hu. destruct (Scatter_decrypt persisted (seed w')); reflexivity.
    + intros view Hv. rewrite Hu, Hv. reflexivity.
Qed.

(** C10: [identityFromPermissions] answers [null] when no passphrase is
    held, without the [locked] error, without a lock notice and without any
    other change, whereas every privileged operation in the same world
    answers [locked] and opens the notice; it also answers [null] when,
    under a held passphrase that decrypts the stored vault, the identity
    service finds no permission for the requesting domain. *)
Theorem identityFromPermissions_null (domain : string) (w : World) :
  (seed w = "" ->
   exec (identityFromPermissions respond domain) w =
     with_responses (responses w ++ [RNull]) w
   /\ forall m, privileged m = true ->
        exec (handle respond m) w =
        with_responses (responses w ++ [RError Error_locked])
          (with_prompts (prompts w ++ [scatterIsLocked]) w))
  /\
  (forall scatter,
     has_length (seed w) = true ->
     Scatter_decrypt (stored w) (seed w) = Some scatter ->
     IdentityService_identityPermission domain scatter = None ->
     exec (identityFromPermissions respond domain) w =
     with_responses (responses w ++ [RNull]) (synced w)).
Proof.
  split.
  - intro Hs. split.
    + unfold exec, identityFromPermissions, bind, gets. rewrite Hs. reflexivity.
    + intros m Hp. unfold exec. rewrite (handle_locked _ _ _ Hp Hs). reflexivity.
  - intros scatter Hs Hd Hn.
    unfold exec, identityFromPermissions, bind, gets. rewrite Hs. cbn [negb].
    rewrite (load_unlocked _ _ _ Hs Hd). rewrite Hn. reflexivity.
Qed.

End Requests.

Lemma requestAddNetwork_outcomes_witness :
  let known := {| host := "node.example"; port := 8888 |} in
  let new := {| host := "other.example"; port := 443 |} in
  let prompt := addNetworkPrompt "dapp.example" new Ideal.opened in
  exec (requestAddNetwork respond "dapp.example" known) Ideal.unlocked =
    with_responses [RBool true] Ideal.unlocked /\
  exec (requestAddNetwork respond "dapp.example" new) Ideal.unlocked =
    with_prompts [prompt] Ideal.unlocked /\
  exec (Prompt_respond respond prompt (RBool false)) Ideal.unlocked =
    with_responses [RBool false] Ideal.unlocked /\
  option_map (fun v => networks (settings v))
    (storage (exec (Prompt_respond respond prompt (RBool true)) Ideal.unlocked)) =
    Some [new; known].
Proof.
  cbv zeta.
  destruct (requestAddNetwork_outcomes "dapp.example"
              {| host := "node.example"; port := 8888 |}
              Ideal.unlocked Ideal.opened eq_refl eq_refl) as (present & _).
  destruct (requestAddNetwork_outcomes "dapp.example"
              {| host := "other.example"; port := 443 |}
              Ideal.unlocked Ideal.opened eq_refl eq_refl)
    as (_ & absent & declined & approved).
  split; [ | split; [ | split ] ].
  - apply present. eexists. split; [left; reflexivity | reflexivity].
  - apply absent. intros n [<- | []]. cbn. discriminate.
  - apply declined. reflexivity.
  - destruct (approved Ideal.unlocked (RBool true) Ideal.keys
                eq_refl ltac:(discriminate) eq_refl eq_refl) as (_ & saved & _).
    rewrite saved. reflexivity.
Defined.

Lemma identityFromPermissions_null_witness :
  exec (identityFromPermissions respond "dapp.example") Ideal.locked =
    with_responses [RNull] Ideal.locked /\
  exec (identityFromPermissions respond "dapp.example") Ideal.unlocked =
    with_responses [RNull] Ideal.unlocked.
Proof.
  split.
  - destruct (identityFromPermissions_null "dapp.example" Ideal.locked) as [locked _].
    apply locked. reflexivity.
  - destruct (identityFromPermissions_null "dapp.example" Ideal.unlocked) as [_ unmatched].
    apply (unmatched Ideal.opened); reflexivity.
Defined.

(* ------------------------------------------------------------------ *)
(** ** Runs: the passphrase and the lock timer over time *)

Section Runs.
Context {X : Collaborators}.

Lemma stays_locked_refl (w : World) : stays_locked w w.
Proof. intro H; exact H. Qed.

Lemma stays_locked_trans (a b c : World) :
  stays_locked a b -> stays_locked b c -> stays_locked a c.
Proof. unfold stays_locked; auto. Qed.

Lemma same_timers_refl (w : World) : same_timers w w.
Proof. unfold same_timers; auto. Qed.

Lemma same_timers_trans (a b c : World) :
  same_timers a b -> same_timers b c -> same_timers a c.
Proof.
  unfold same_timers. intros (?&?&?&?) (?&?&?&?). repeat split; congruence.
Qed.

Ltac frame_side :=
  first
    [ exact stays_locked_refl | exact stays_locked_trans
    | exact same_timers_refl | exact same_timers_trans
    | solve [ intros; unfold stays_locked, same_timers; cbn; auto ]
    | discriminate
    | intros; apply respond_keeps; frame_side ].

Lemma handle_stays_locked (m : InternalMessage) (w : World) :
  sets_passphrase (Dispatch m) = false ->
  stays_locked w (exec (handle respond m) w).
Proof.
  intro Hq.
  destruct m as [payload| | | | | | | | | | | | | |];
    try (apply (handle_keeps stays_locked); frame_side).
  cbn in Hq. apply has_length_empty in Hq. subst payload.
  intro Hs. reflexivity.
Qed.

Lemma handle_same_timers (m : InternalMessage) (w : World) :
  same_timers w (exec (handle respond m) w).
Proof.
  destruct m as [payload| | | | | | | | | | | | | |];
    try (apply (handle_keeps same_timers); frame_side).
  unfold same_timers. cbn. auto.
Qed.

Lemma Prompt_respond_stays_locked p approved (w : World) :
  stays_locked w (exec (Prompt_respond respond p approved) w).
Proof. apply (Prompt_respond_keeps stays_locked); frame_side. Qed.

Lemma Prompt_respond_same_timers p approved (w : World) :
  same_timers w (exec (Prompt_respond respond p approved) w).
Proof. apply (Prompt_respond_keeps same_timers); frame_side. Qed.

Lemma elapse_stays_locked (d : Z) (w : World) : stays_locked w (elapse d w).
Proof.
  unfold stays_locked, elapse. intro Hs.
  destruct (filter _ _); cbn; auto.
Qed.

Lemma step_stays_locked (e : Event) (w : World) :
  sets_passphrase e = false -> stays_locked w (step w e).
Proof.
  intros Hq Hs. destruct e as [m|d|n approved]; cbn [step].
  - rewrite dispenseMessage_exec.
    apply handle_stays_locked; [exact Hq|].
    destruct (checkAutoLock_frame w) as (_ & H & _). congruence.
  - apply elapse_stays_locked, Hs.
  - destruct (nth_error _ _); [|exact Hs].
    apply Prompt_respond_stays_locked, Hs.
Qed.

Lemma run_stays_locked (events : list Event) (w : World) :
  Forall (fun e => sets_passphrase e = false) events ->
  stays_locked w (run w events).
Proof.
  revert w. induction events as [|e rest IH]; intros w Hq Hs; cbn.
  - exact Hs.
  - inversion Hq; subst. apply IH; [assumption|].
    apply step_stays_locked; assumption.
Qed.

(** C9: [setSeed] stores whatever payload it is given, the empty string
    included, and answers [true] without looking at it.  After the empty
    passphrase has been set, and for as long as no event sets a non-empty
    one, the seed is empty and every privileged operation is answered with
    the [locked] error and the lock notice and writes nothing; a non-empty
    passphrase ends this. *)
Theorem setSeed_unvalidated (payload : string) (w : World)
    (events : list Event) (m : InternalMessage) :
  Forall (fun e => sets_passphrase e = false) events ->
  privileged m = true ->
  let w0 := step w (Dispatch (SET_SEED payload)) in
  let w1 := run w0 events in
  (responses w0 = (responses w ++ [RBool true])%list /\ seed w0 = payload) /\
  (payload = "" ->
     seed w1 = "" /\
     step w1 (Dispatch m) =
       with_responses (responses w1 ++ [RError Error_locked])
         (with_prompts (prompts w1 ++ [scatterIsLocked]) (exec checkAutoLock w1)) /\
     storage (step w1 (Dispatch m)) = storage w1 /\
     forall next, has_length next = true ->
       has_length (seed (step w1 (Dispatch (SET_SEED next)))) = true).
Proof.
  intros Hq Hp w0 w1.
  assert (H0 : responses w0 = (responses w ++ [RBool true])%list /\ seed w0 = payload).
  { unfold w0. cbn [step]. rewrite dispenseMessage_exec.
    destruct (checkAutoLock_frame w) as (_ & _ & _ & _ & _ & Hr & _).
    cbn. rewrite Hr. auto. }
  split; [exact H0|].
  intro He. destruct H0 as [_ H0].
  assert (H1 : seed w1 = "").
  { apply run_stays_locked; [exact Hq | congruence]. }
  split; [exact H1|].
  pose proof (dispatch_locked m w1 Hp H1) as Hd.
  split; [exact Hd | split].
  - rewrite Hd. cbn. destruct (checkAutoLock_frame w1) as (_ & _ & _ & _ & Hst & _).
    exact Hst.
  - intros next Hn. cbn [step]. rewrite dispenseMessage_exec. cbn. exact Hn.
Qed.

End Runs.

Lemma setSeed_unvalidated_witness :
  let w1 := run (step Ideal.unlocked (Dispatch (SET_SEED "")))
              [Dispatch IS_UNLOCKED; Elapse 1000; Dispatch (SET_SEED "")] in
  seed w1 = "" /\
  responses (step w1 (Dispatch (PUB_TO_PRIV "A"))) =
    [RBool true; RBool false; RBool true; RError Error_locked].
Proof.
  cbv zeta.
  destruct (setSeed_unvalidated "" Ideal.unlocked
              [Dispatch IS_UNLOCKED; Elapse 1000; Dispatch (SET_SEED "")]
              (PUB_TO_PRIV "A")) as (_ & locked).
  - repeat constructor.
  - reflexivity.
  - destruct (locked eq_refl) as (Hseed & Hstep & _).
    split; [exact Hseed | rewrite Hstep; reflexivity].
Defined.

Section Timer.
Context {X : Collaborators}.

Lemma checkAutoLock_zero (w : World) :
  inactivityInterval w = 0 -> exec checkAutoLock w = w.
Proof.
  intro H. unfold exec, checkAutoLock, bind, gets. rewrite H. reflexivity.
Qed.

Lemma tracked_cleared (w : World) (handle : positive) :
  tracked w -> timeoutLocker w = Some handle ->
  filter (fun e => negb (Pos.eqb (fst e) handle)) (timers w) = [].
Proof.
  intros Ht Hl. unfold tracked in Ht. rewrite Hl in Ht.
  induction (timers w) as [|[h t] rest IH]; [reflexivity|].
  cbn. assert (E : h = handle).
  { specialize (Ht h t (or_introl eq_refl)). congruence. }
  subst h. rewrite Pos.eqb_refl. cbn.
  apply IH. intros h' t' Hin. apply (Ht h' t'). right. exact Hin.
Qed.

Lemma tracked_none (w : World) :
  tracked w -> timeoutLocker w = None -> timers w = [].
Proof.
  intros Ht Hl. unfold tracked in Ht.
  destruct (timers w) as [|[h t] rest]; [reflexivity|].
  specialize (Ht h t (or_introl eq_refl)). congruence.
Qed.

Lemma timer_delay_in_range (delay : Z) :
  0 < delay <= 2147483647 -> timer_delay delay = delay.
Proof.
  intros [H1 H2]. unfold timer_delay, TIMEOUT_MAX.
  destruct (Z.leb_spec 1 delay); [|lia].
  destruct (Z.leb_spec delay 2147483647); [|lia].
  reflexivity.
Qed.

Lemma checkAutoLock_nonzero (w : World) :
  inactivityInterval w <> 0 ->
  tracked w ->
  let w' := exec checkAutoLock w in
  (truthy (seed w) = true ->
     timers w' = [(nextHandle w, clock w + timer_delay (inactivityInterval w))] /\
     timeoutLocker w' = Some (nextHandle w)) /\
  (truthy (seed w) = false ->
     timers w' = [] /\ timeoutLocker w' = timeoutLocker w).
Proof.
  intros Hi Ht. apply Z.eqb_neq in Hi.
  unfold exec, checkAutoLock, bind, gets, modify, window_clearTimeout,
    window_setTimeout, ret.
  rewrite Hi.
  destruct (timeoutLocker w) as [handle|] eqn:Hl; cbn.
  - destruct (truthy (seed w)); cbn; rewrite (tracked_cleared w handle Ht Hl);
      split; intros; try discriminate; auto.
  - destruct (truthy (seed w)); cbn; rewrite (tracked_none w Ht Hl);
      split; intros; try discriminate; auto.
Qed.

Lemma elapse_idle (d : Z) (w : World) :
  timers w = [] -> elapse d w = with_clock (clock w + d) w.
Proof.
  intro H. unfold elapse. rewrite H. cbn.
  destruct w; cbn in *; subst; reflexivity.
Qed.

Lemma elapse_single (d : Z) (w : World) (handle : positive) (deadline : Z) :
  timers w = [(handle, deadline)] ->
  seed (elapse d w) = if deadline <=? clock w + d then "" else seed w.
Proof.
  intro H. unfold elapse. rewrite H. cbn. unfold due. cbn.
  destruct (deadline <=? clock w + d); reflexivity.
Qed.

Lemma step_no_timer (e : Event) (w : World) :
  timers w = [] ->
  match e with Dispatch _ => inactivityInterval w = 0 | _ => True end ->
  timers (step w e) = [].
Proof.
  intros Ht Hz. destruct e as [m|d|n approved]; cbn [step].
  - rewrite dispenseMessage_exec, (checkAutoLock_zero w Hz).
    destruct (handle_same_timers m w) as (H & _). congruence.
  - rewrite (elapse_idle d w Ht). exact Ht.
  - destruct (nth_error _ _) as [p|]; [|exact Ht].
    destruct (Prompt_respond_same_timers p approved w) as (H & _). congruence.
Qed.

Lemma step_tracked (e : Event) (w : World) : tracked w -> tracked (step w e).
Proof.
  intros Ht. destruct e as [m|d|n approved]; cbn [step].
  - rewrite dispenseMessage_exec.
    assert (Hc : tracked (exec checkAutoLock w)).
    { destruct (Z.eq_dec (inactivityInterval w) 0) as [Hz|Hz].
      - rewrite (checkAutoLock_zero w Hz). exact Ht.
      - destruct (checkAutoLock_nonzero w Hz Ht) as [Hyes Hno].
        destruct (truthy (seed w)).
        + destruct (Hyes eq_refl) as [H1 H2]. intros h t. rewrite H1, H2.
          intros [E|[]]. inversion E. reflexivity.
        + destruct (Hno eq_refl) as [H1 _]. intros h t. rewrite H1. intros []. }
    destruct (handle_same_timers m (exec checkAutoLock w)) as (H1 & H2 & _).
    intros h t. rewrite H1, H2. apply Hc.
  - intros h t Hin. unfold elapse in Hin |- *.
    assert (Hin' : In (h, t) (timers w)).
    { destruct (filter (due _) (timers w)); cbn in Hin;
        apply filter_In in Hin; tauto. }
    destruct (filter (due _) (timers w)); cbn; apply (Ht h t Hin').
  - destruct (nth_error _ _) as [p|]; [|exact Ht].
    destruct (Prompt_respond_same_timers p approved w) as (H1 & H2 & _).
    intros h t. rewrite H1, H2. apply Ht.
Qed.

(** C7 (as amended): (1) while no lock timer is pending and the inactivity
    interval is zero at every dispatch, no request schedules one, and idle
    time of any length only advances the clock: the seed is what it was.
    (2) With a nonzero interval, a dispatched request cancels the pending
    lock timer; if a passphrase is held when the request arrives it
    schedules exactly one new timer, and with an interval the runtime's
    timers can wait for (1 to 2147483647 ms) that timer is due at
    now + interval, its firing empties the seed and it does not fire
    earlier; if no passphrase is held the request schedules none.  (3) In
    every state the script reaches, the pending timer is the one
    [timeoutLocker] refers to. *)
Theorem autoLock_schedule :
  (forall (w : World) events d,
     timers w = [] ->
     zero_at_dispatch w events ->
     timers (run w events) = [] /\
     elapse d (run w events) = with_clock (clock (run w events) + d) (run w events) /\
     seed (elapse d (run w events)) = seed (run w events))
  /\
  (forall (w : World) m,
     inactivityInterval w <> 0 ->
     tracked w ->
     let w' := step w (Dispatch m) in
     (truthy (seed w) = true ->
        (exists deadline, timers w' = [(nextHandle w, deadline)]) /\
        timeoutLocker w' = Some (nextHandle w) /\
        (0 < inactivityInterval w <= 2147483647 ->
           timers w' = [(nextHandle w, clock w + inactivityInterval w)] /\
           (forall d, inactivityInterval w <= d -> seed (elapse d w') = "") /\
           (forall d, d < inactivityInterval w -> seed (elapse d w') = seed w'))) /\
     (truthy (seed w) = false -> timers w' = []))
  /\
  (forall store events, tracked (run (initial store) events)).
Proof.
  split; [ | split ].
  - intros w events d. revert w.
    induction events as [|e rest IH]; intros w Ht Hz; cbn.
    + split; [exact Ht|]. rewrite (elapse_idle d w Ht). split; reflexivity.
    + destruct Hz as [Hz Hrest]. apply IH; [|exact Hrest].
      apply step_no_timer; assumption.
  - intros w m Hi Ht w'.
    assert (Hw : same_timers (exec checkAutoLock w) w').
    { unfold w'. cbn [step]. rewrite dispenseMessage_exec. apply handle_same_timers. }
    destruct Hw as (H1 & H2 & H3 & _).
    destruct (checkAutoLock_nonzero w Hi Ht) as [Hyes Hno].
    destruct (checkAutoLock_frame w) as (_ & _ & _ & Hclock & _).
    split.
    + intro Hs. destruct (Hyes Hs) as [Ha Hb].
      split; [eexists; rewrite H1; exact Ha | split; [congruence|]].
      intro Hrange.
      assert (Ht' : timers w' = [(nextHandle w, clock w + inactivityInterval w)]).
      { rewrite H1, Ha, (timer_delay_in_range _ Hrange). reflexivity. }
      assert (Hc' : clock w' = clock w) by congruence.
      split; [exact Ht' | split].
      * intros d Hd. rewrite (elapse_single d w' _ _ Ht'), Hc'.
        destruct (Z.leb_spec (clock w + inactivityInterval w) (clock w + d)); [|lia].
        reflexivity.
      * intros d Hd. rewrite (elapse_single d w' _ _ Ht'), Hc'.
        destruct (Z.leb_spec (clock w + inactivityInterval w) (clock w + d)); [lia|].
        reflexivity.
    + intro Hs. destruct (Hno Hs) as [Ha _]. congruence.
  - intros store events.
    assert (H0 : tracked (initial store)) by (intros h t []).
    revert H0. generalize (initial store).
    induction events as [|e rest IH]; intros w Hw; cbn.
    + exact Hw.
    + apply IH, step_tracked, Hw.
Qed.

End Timer.

(** C7 (as stated) fails twice.  With a five-minute interval and the
    passphrase already cleared by the timer, a dispatched request schedules
    no timer.  And after the interval has been set from five minutes to
    zero, the timer scheduled before is still pending: the interval is
    zero, the passphrase is held, and after one more request and five idle
    minutes the timer has emptied it. *)
Lemma autoLock_counterexample :
  (let w := run Ideal.unlocked
              [Dispatch (SET_TIMEOUT 5); Dispatch IS_UNLOCKED; Elapse 300000] in
   inactivityInterval w = 300000 /\
   seed w = "" /\
   timers (step w (Dispatch IS_UNLOCKED)) = []) /\
  (let w := run Ideal.unlocked
              [Dispatch (SET_TIMEOUT 5); Dispatch IS_UNLOCKED;
               Dispatch (SET_TIMEOUT 0); Dispatch LOAD] in
   inactivityInterval w = 0 /\
   seed w = "correct-seed" /\
   seed (run w [Dispatch IS_UNLOCKED; Elapse 300000]) = "").
Proof. cbv zeta. repeat split; vm_compute; reflexivity. Qed.

Lemma autoLock_schedule_witness :
  (let w := run Ideal.unlocked [Dispatch IS_UNLOCKED; Elapse 86400000; Dispatch LOAD] in
   timers w = [] /\ seed (elapse 86400000 w) = "correct-seed") /\
  (let w := step (with_inactivityInterval 300000 Ideal.unlocked) (Dispatch LOAD) in
   timers w = [(1%positive, 300000)] /\
   seed (elapse 300000 w) = "" /\
   seed (elapse 299999 w) = "correct-seed").
Proof.
  cbv zeta.
  destruct (@autoLock_schedule Ideal.collaborators) as (zero & nonzero & _).
  split.
  - destruct (zero Ideal.unlocked
                [Dispatch IS_UNLOCKED; Elapse 86400000; Dispatch LOAD] 86400000)
      as (H1 & _ & H3).
    + reflexivity.
    + cbn. repeat split; reflexivity.
    + split; [exact H1 | rewrite H3; reflexivity].
  - destruct (nonzero (with_inactivityInterval 300000 Ideal.unlocked) LOAD)
      as (held & _).
    + cbn. discriminate.
    + intros h t [].
    + destruct (held eq_refl) as (_ & _ & inrange).
      destruct inrange as (H1 & H3 & H4); [cbn; lia|].
      split; [exact H1 | split].
      * apply H3. cbn. lia.
      * rewrite H4; [reflexivity | cbn; lia].
Defined.

(* ------------------------------------------------------------------ *)
(** ** Granting permissions *)

Section Grants.
Context {X : Collaborators}.

Lemma hasPermission_In (p : Permission) (k : Keychain) :
  Keychain_hasPermission (Permission_checksum p) (Permission_fields p) k = true <->
  In (Permission_checksum p) (checksums k).
Proof.
  unfold Keychain_hasPermission, checksums. rewrite existsb_exists, in_map_iff.
  split; intros (q & H1 & H2); exists q.
  - apply String.eqb_eq in H2. auto.
  - split; [exact H2 | apply String.eqb_eq; exact H1].
Qed.

Lemma grant_present (k : Keychain) (p : Permission) :
  In (Permission_checksum p) (checksums k) -> grant k p = k.
Proof.
  intro H. apply hasPermission_In in H. unfold grant. rewrite H. reflexivity.
Qed.

Lemma grant_checksums (k : Keychain) (p : Permission) :
  checksums (grant k p) =
  if Keychain_hasPermission (Permission_checksum p) (Permission_fields p) k
  then checksums k
  else Permission_checksum p :: checksums k.
Proof.
  unfold grant. destruct (Keychain_hasPermission _ _ _); reflexivity.
Qed.

Lemma grant_NoDup (k : Keychain) (p : Permission) :
  NoDup (checksums k) -> NoDup (checksums (grant k p)).
Proof.
  intro H. rewrite grant_checksums.
  destruct (Keychain_hasPermission _ _ _) eqn:E; [exact H|].
  constructor; [|exact H].
  intro Hin. apply hasPermission_In in Hin. congruence.
Qed.

Lemma grant_keeps (k : Keychain) (p : Permission) (c : string) :
  In c (checksums k) -> In c (checksums (grant k p)).
Proof.
  intro H. rewrite grant_checksums.
  destruct (Keychain_hasPermission _ _ _); [exact H | right; exact H].
Qed.

Lemma grant_adds (k : Keychain) (p : Permission) :
  In (Permission_checksum p) (checksums (grant k p)).
Proof.
  rewrite grant_checksums.
  destruct (Keychain_hasPermission _ _ _) eqn:E.
  - apply hasPermission_In. exact E.
  - left. reflexivity.
Qed.

Lemma grant_all (perms : list Permission) (k : Keychain) :
  (NoDup (checksums k) -> NoDup (checksums (fold_left grant perms k))) /\
  (forall c, In c (checksums k) -> In c (checksums (fold_left grant perms k))) /\
  (forall p, In p perms ->
             In (Permission_checksum p) (checksums (fold_left grant perms k))).
Proof.
  revert k. induction perms as [|q rest IH]; intro k; cbn.
  - repeat split; auto. intros p [].
  - destruct (IH (grant k q)) as (IH1 & IH2 & IH3). repeat split.
    + intro H. apply IH1, grant_NoDup, H.
    + intros c H. apply IH2, grant_keeps, H.
    + intros p [<- | Hin]; [apply IH2, grant_adds | apply IH3, Hin].
Qed.

Lemma addPermissions_unlocked (perms : list Permission) (w : World)
    (v : Scatter Ciphertext) (k : Keychain) :
  has_length (seed w) = true ->
  Scatter_decrypt (stored w) (seed w) = Some v ->
  keychain v = object k ->
  exec (addPermissions perms) w =
  with_storage
    (Some (Scatter_encrypt
             (with_keychain
                (object (field_encrypted (seed w) (fold_left grant perms k))) v)
             (seed w)))
    (synced w).
Proof.
  intros Hs Hd Hk. unfold exec, addPermissions.
  rewrite (load_unlocked _ _ _ Hs Hd). cbn [snd].
  assert (Hs' : has_length (seed (synced w)) = true) by exact Hs.
  destruct perms as [|p rest].
  - unfold exec, bind, ret. rewrite (update_unlocked _ v k (synced w) Hs' Hk).
    cbn [snd fold_left].
    destruct (Scatter_decrypt (Scatter_encrypt _ _) _); reflexivity.
  - unfold exec, keychain_object. rewrite Hk. unfold bind, ret. cbv beta iota.
    rewrite (update_unlocked _
               (with_keychain (object (fold_left grant (p :: rest) k)) v)
               (fold_left grant (p :: rest) k) (synced w) Hs' eq_refl).
    cbn [snd]. destruct (Scatter_decrypt (Scatter_encrypt _ _) _); reflexivity.
Qed.

(** C6: with [hasPermission] looking the checksum up, adding a permission
    whose checksum is already in [keychain.permissions] changes nothing;
    and, under a held passphrase and a cipher that undoes itself, after
    any sequence of calls of [addPermissions] on a stored keychain whose
    checksums were unique, the stored keychain's checksums are still
    unique and every granted permission's checksum occurs in it exactly
    once, however often it was granted. *)
Theorem grants_keep_checksums_unique (w : World) (v : Scatter Ciphertext)
    (k : Keychain) (batches : list (list Permission)) :
  (forall (v : Scatter Ciphertext) k s,
     keychain v = object k -> Scatter_decrypt (Scatter_encrypt v s) s = Some v) ->
  has_length (seed w) = true ->
  Scatter_decrypt (stored w) (seed w) = Some v ->
  keychain v = object k ->
  NoDup (checksums k) ->
  (forall k p, In (Permission_checksum p) (checksums k) -> grant k p = k) /\
  exists v' k',
    Scatter_decrypt (stored (grants w batches)) (seed (grants w batches)) = Some v' /\
    keychain v' = object k' /\
    NoDup (checksums k') /\
    (forall c, In c (checksums k) -> In c (checksums k')) /\
    (forall p, In p (concat batches) ->
       count_occ string_dec (checksums k') (Permission_checksum p) = 1%nat).
Proof.
  intros Hround Hs Hd Hk Hn. split; [exact grant_present|].
  revert w v k Hs Hd Hk Hn.
  induction batches as [|perms rest IH]; intros w v k Hs Hd Hk Hn.
  - exists v, k. cbn.
    split; [exact Hd | split; [exact Hk | split; [exact Hn | split]]]; auto.
    intros p [].
  - cbn [grants fold_left]. fold (grants (exec (addPermissions perms) w) rest).
    set (k1 := field_encrypted (seed w) (fold_left grant perms k)).
    set (v1 := with_keychain (object k1) v).
    assert (Hw : exec (addPermissions perms) w =
                 with_storage (Some (Scatter_encrypt v1 (seed w))) (synced w))
      by (apply addPermissions_unlocked; assumption).
    destruct (grant_all perms k) as (G1 & G2 & G3).
    destruct (IH (exec (addPermissions perms) w) v1 k1) as (v' & k' & H1 & H2 & H3 & H4 & H5).
    + rewrite Hw. exact Hs.
    + rewrite Hw. cbn. apply (Hround v1 k1). reflexivity.
    + reflexivity.
    + apply G1, Hn.
    + exists v', k'.
      split; [exact H1 | split; [exact H2 | split; [exact H3 | split]]].
      * intros c Hc. apply H4. apply G2, Hc.
      * intros p Hin. cbn [concat] in Hin. apply in_app_or in Hin.
        destruct Hin as [Hin|Hin]; [|apply H5, Hin].
        apply NoDup_count_occ'; [exact H3|].
        apply H4. apply G3, Hin.
Qed.

End Grants.

(** The ideal cipher undoes itself. *)
Lemma Ideal_roundtrip (v : Scatter Ciphertext) (k : Keychain) (s : string) :
  keychain v = object k -> Scatter_decrypt (Scatter_encrypt v s) s = Some v.
Proof.
  destruct v as [st kc hs]. cbn. intros ->.
  unfold Ideal.decrypt, Ideal.encrypt. cbn. rewrite String.eqb_refl. reflexivity.
Qed.

Lemma grants_keep_checksums_unique_witness :
  let network := {| host := "node.example"; port := 8888 |} in
  let first := Permission_fromJson "dapp.example" network "A" 1 ["name"] in
  let again := Permission_fromJson "dapp.example" network "A" 2 ["name"] in
  let w := grants Ideal.unlocked [[first]; [again]] in
  exists v k,
    Scatter_decrypt (stored w) (seed w) = Some v /\
    keychain v = object k /\
    count_occ string_dec (checksums k) "dapp.example,node.example,A,name" = 1%nat.
Proof.
  cbv zeta.
  destruct (grants_keep_checksums_unique Ideal.unlocked Ideal.opened Ideal.keys
              [[Permission_fromJson "dapp.example"
                  {| host := "node.example"; port := 8888 |} "A" 1 ["name"]];
               [Permission_fromJson "dapp.example"
                  {| host := "node.example"; port := 8888 |} "A" 2 ["name"]]]
              Ideal_roundtrip eq_refl eq_refl eq_refl (NoDup_nil string))
    as (_ & v & k & H1 & H2 & _ & _ & H5).
  exists v, k. split; [exact H1 | split; [exact H2 | ]].
  exact (H5 (Permission_fromJson "dapp.example"
               {| host := "node.example"; port := 8888 |} "A" 1 ["name"])
            (or_introl eq_refl)).
Defined.

(** The same two grants, run: the stored keychain holds the first
    permission only. *)
Example grant_twice_stored :
  let network := {| host := "node.example"; port := 8888 |} in
  let first := Permission_fromJson "dapp.example" network "A" 1 ["name"] in
  let again := Permission_fromJson "dapp.example" network "A" 2 ["name"] in
  let w := grants Ideal.unlocked [[first]; [again]] in
  option_map (fun v => match keychain v with
                       | object k => map Permission_timestamp (permissions k)
                       | ciphertext _ => []
                       end)
    (Scatter_decrypt (stored w) (seed w)) = Some [1].
Proof. vm_compute. reflexivity. Qed.

(* ------------------------------------------------------------------ *)
(** ** Further properties of the script: what the handlers leave alone *)

Section Reading.
Context {X : Collaborators}.
Variable R : World -> World -> Prop.
Hypothesis R_refl : forall w, R w w.
Hypothesis R_trans : forall a b c, R a b -> R b c -> R a c.
Hypothesis R_lock : forall w, R w (with_seed "" w).
Hypothesis R_interval : forall i w, R w (with_inactivityInterval i w).
Hypothesis R_prompts : forall l w, R w (with_prompts l w).

Ltac reads_tac :=
  repeat first
    [ assumption
    | match goal with
      | H : forall r, kept R (?f r) |- kept R (?f _) => apply H
      | |- kept R (ret _) => apply (keeps_ret R R_refl)
      | |- kept R throw => apply (keeps_throw R R_refl)
      | |- kept R (gets _) => apply (keeps_gets R R_refl)
      | |- kept R (orThrow _) => apply (keeps_orThrow R R_refl)
      | |- kept R (promise_then _) => apply keeps_promise_then
      | |- kept R (try_catch _ _) => apply (keeps_try_catch R R_trans)
      | |- kept R (bind _ _) => apply (keeps_bind R R_trans); [ | intro ]
      | |- kept R (lockGuard _ _) => apply (lockGuard_keeps R R_refl R_trans R_prompts)
      | |- kept R (load _) => apply (load_keeps R R_refl R_trans R_interval); intro
      | |- kept R (modify _) =>
          apply keeps_modify; intro;
          solve [ apply R_lock | apply R_interval | apply R_prompts ]
      | |- kept R (if ?b then _ else _) => destruct b
      | |- kept R (match ?x with _ => _ end) => destruct x
      end
    | progress cbv beta zeta ].

(** A request without [update] and without [clear] keeps every relation
    that admits clearing the seed, syncing the interval and prompting:
    whatever else the relation says of the world is left as it was. *)
Lemma reads_keep sendResponse (m : InternalMessage) :
  (forall r, kept R (sendResponse r)) ->
  reads_only m = true ->
  (forall p, m <> SET_SEED p) ->
  kept R (handle sendResponse m).
Proof.
  intros Hs Hr Hm.
  destruct m; try discriminate Hr; cbn [handle].
  - exfalso. eapply Hm. reflexivity.
  - unfold isUnlocked, StorageService_get, decrypt. reads_tac.
  - reads_tac.
  - unfold publicToPrivate, StorageService_get, decrypt, keychain_object. reads_tac.
  - unfold identityFromPermissions. reads_tac.
  - unfold requestAddNetwork, NotificationService_open. reads_tac.
  - unfold requestGetVersion. reads_tac.
  - unfold requestVersionUpdate, NotificationService_open. reads_tac.
  - unfold authenticate, keychain_object. reads_tac.
  - reads_tac.
Qed.

End Reading.

Section Untouched.
Context {X : Collaborators}.

Lemma same_storage_refl (w : World) : same_storage w w.
Proof. reflexivity. Qed.

Lemma same_storage_trans (a b c : World) :
  same_storage a b -> same_storage b c -> same_storage a c.
Proof. unfold same_storage. congruence. Qed.

Lemma kept_or_cleared_refl (w : World) : kept_or_cleared w w.
Proof. left. reflexivity. Qed.

Lemma kept_or_cleared_trans (a b c : World) :
  kept_or_cleared a b -> kept_or_cleared b c -> kept_or_cleared a c.
Proof.
  unfold kept_or_cleared. intros [H1|H1] [H2|H2]; rewrite ?H2, ?H1; auto.
Qed.

Lemma setTimeout_locked sendResponse (minutes : Z) (w : World) :
  seed w = "" ->
  setTimeout sendResponse minutes w =
  sendResponse (RBool true)
    (with_prompts (prompts w ++ [scatterIsLocked])
       (with_inactivityInterval (TimingHelpers_minutes minutes) w)).
Proof.
  intro Hs. unfold setTimeout, bind at 1. rewrite (load_locked _ _ Hs).
  unfold exec, bind, modify, gets, update. cbn [fst snd].
  rewrite lockGuard_locked by exact Hs. reflexivity.
Qed.

Lemma handle_reads_storage (m : InternalMessage) (w : World) :
  reads_only m = true ->
  storage (exec (handle respond m) w) = storage w.
Proof.
  intro Hr.
  destruct m as [payload| | | | | | | | | | | | | |]; try discriminate Hr;
    try (apply (reads_keep same_storage same_storage_refl same_storage_trans);
         [ reflexivity | reflexivity | reflexivity
         | intro; apply respond_keeps; reflexivity
         | reflexivity | discriminate ]).
  reflexivity.
Qed.

(** X1: a request whose handler has no [update] and no [clear] (setSeed,
    isUnlocked, load, publicToPrivate, identityFromPermissions,
    requestAddNetwork, requestGetVersion, requestVersionUpdate,
    authenticate, an unrecognised type) never writes the storage, whatever
    the state of the session and whatever the cipher does. *)
Theorem reading_requests_never_write (m : InternalMessage) (w : World) :
  reads_only m = true ->
  storage (step w (Dispatch m)) = storage w.
Proof.
  intro Hr. cbn [step]. rewrite dispenseMessage_exec.
  rewrite (handle_reads_storage m _ Hr).
  destruct (checkAutoLock_frame w) as (_ & _ & _ & _ & Hst & _). exact Hst.
Qed.

(** X2: while no passphrase is held nothing writes the storage: not a
    request of any type, not the passing of time, not the answer to a
    prompt opened earlier. *)
Theorem locked_session_never_writes (e : Event) (w : World) :
  seed w = "" ->
  storage (step w e) = storage w.
Proof.
  intro Hs. destruct e as [m|d|n approved].
  - destruct (checkAutoLock_frame w) as (_ & Hseed & _ & _ & Hst & _).
    destruct (privileged m) eqn:Hp.
    + rewrite (dispatch_locked m w Hp Hs). exact Hst.
    + cbn [step]. rewrite dispenseMessage_exec. rewrite <- Hst.
      assert (Hs' : seed (exec checkAutoLock w) = "") by congruence.
      revert Hs'. generalize (exec checkAutoLock w). intros w' Hs'.
      destruct (reads_only m) eqn:Hr; [apply handle_reads_storage, Hr|].
      destruct m; try discriminate Hp; try discriminate Hr.
      cbn [handle]. unfold exec. rewrite (setTimeout_locked _ _ _ Hs').
      reflexivity.
  - cbn [step]. unfold elapse. destruct (filter _ _); reflexivity.
  - cbn [step].
    destruct (nth_error _ _) as [[|type domain network data [scatter net|]]|];
      try reflexivity.
    unfold exec, Prompt_respond, requestAddNetwork_approved.
    destruct approved as [[|]| | | | |]; try reflexivity;
      unfold update; rewrite (lockGuard_locked _ _ _ Hs); reflexivity.
Qed.

(** X3: while no passphrase is held, a dispatched request is answered
    exactly as [locked_answer] tabulates: [true] for setSeed and
    setTimeout, [false] for isUnlocked, the stored document as it is for
    load, [null] for identityFromPermissions, the version for
    requestGetVersion, the [locked] error for the seven guarded operations,
    and nothing for requestVersionUpdate and for an unrecognised type. *)
Theorem locked_session_answers (m : InternalMessage) (w : World) :
  seed w = "" ->
  responses (step w (Dispatch m)) = (responses w ++ locked_answer w m)%list.
Proof.
  intro Hs.
  destruct (checkAutoLock_frame w) as (_ & Hseed & _ & _ & Hst & Hr & _).
  destruct (privileged m) eqn:Hp.
  - rewrite (dispatch_locked m w Hp Hs). destruct m; try discriminate Hp; reflexivity.
  - cbn [step]. rewrite dispenseMessage_exec.
    assert (Hstored : stored (exec checkAutoLock w) = stored w)
      by (unfold stored; rewrite Hst; reflexivity).
    assert (Hs' : seed (exec checkAutoLock w) = "") by congruence.
    rewrite <- Hr.
    replace (locked_answer w m) with (locked_answer (exec checkAutoLock w) m)
      by (destruct m; cbn; rewrite ?Hstored; reflexivity).
    revert Hs'. generalize (exec checkAutoLock w). clear - Hp. intros w Hs.
    destruct m; try discriminate Hp; cbn [handle locked_answer]; unfold exec.
    + reflexivity.
    + rewrite (setTimeout_locked _ _ _ Hs). reflexivity.
    + unfold isUnlocked, bind, gets. rewrite Hs. reflexivity.
    + rewrite (load_locked _ _ Hs). reflexivity.
    + unfold identityFromPermissions, bind, gets. rewrite Hs. reflexivity.
    + reflexivity.
    + cbn. rewrite app_nil_r. reflexivity.
    + cbn. rewrite app_nil_r. reflexivity.
Qed.

(** X4: an event other than a set-seed request leaves the seed as it was
    or clears it; over a run without set-seed requests the seed held at the
    end is the one held at the start, or none.  The script never stores a
    passphrase that [setSeed] was not given. *)
Theorem seed_kept_or_cleared (events : list Event) (w : World) :
  (forall payload, ~ In (Dispatch (SET_SEED payload)) events) ->
  kept_or_cleared w (run w events).
Proof.
  revert w. induction events as [|e rest IH]; intros w Hno; cbn [run fold_left].
  - apply kept_or_cleared_refl.
  - apply kept_or_cleared_trans with (b := step w e).
    + destruct e as [m|d|n approved]; cbn [step].
      * rewrite dispenseMessage_exec.
        destruct (checkAutoLock_frame w) as (_ & Hseed & _).
        apply kept_or_cleared_trans with (b := exec checkAutoLock w);
          [left; exact Hseed|].
        apply (handle_keeps kept_or_cleared kept_or_cleared_refl kept_or_cleared_trans);
          try (intros; unfold kept_or_cleared; cbn; auto; fail).
        -- intro r. apply respond_keeps. intros; left; reflexivity.
        -- intros payload ->. apply (Hno payload). left. reflexivity.
      * unfold kept_or_cleared, elapse. destruct (filter _ _); cbn; auto.
      * destruct (nth_error _ _) as [p|]; [|apply kept_or_cleared_refl].
        apply (Prompt_respond_keeps kept_or_cleared kept_or_cleared_refl
                 kept_or_cleared_trans);
          try (intros; unfold kept_or_cleared; cbn; auto; fail).
        intro r. apply respond_keeps. intros; left; reflexivity.
    + apply IH. intros payload Hin. apply (Hno payload). right. exact Hin.
Qed.

(** X5: handlers and prompt answers never touch the timer table, the
    clock or [timeoutLocker]: a dispatched request leaves them as the
    auto-lock check at its head left them, and the answer to a prompt
    leaves them as they were. *)
Theorem timers_only_by_autolock (w : World) :
  (forall m, same_timers (exec checkAutoLock w) (step w (Dispatch m))) /\
  (forall n approved, same_timers w (step w (Answer n approved))).
Proof.
  split.
  - intro m. cbn [step]. rewrite dispenseMessage_exec. apply handle_same_timers.
  - intros n approved. cbn [step].
    destruct (nth_error _ _) as [p|]; [|apply same_timers_refl].
    apply Prompt_respond_same_timers.
Qed.

(** X6: in every state the script reaches from its start there is at most
    one pending lock timer. *)
Theorem at_most_one_timer (store : option (Scatter Ciphertext)) (events : list Event) :
  (length (timers (run (initial store) events)) <= 1)%nat.
Proof.
  assert (H : forall (w : World), tracked w /\ (length (timers w) <= 1)%nat ->
              tracked (run w events) /\ (length (timers (run w events)) <= 1)%nat).
  { induction events as [|e rest IH]; intros w Hw; cbn [run fold_left]; [exact Hw|].
    apply IH. destruct Hw as [Ht Hl]. split; [apply step_tracked, Ht|].
    destruct e as [m|d|n approved]; cbn [step].
    - rewrite dispenseMessage_exec.
      destruct (handle_same_timers m (exec checkAutoLock w)) as (-> & _).
      destruct (Z.eq_dec (inactivityInterval w) 0) as [Hz|Hz].
      + rewrite (checkAutoLock_zero w Hz). exact Hl.
      + destruct (checkAutoLock_nonzero w Hz Ht) as [Hyes Hno].
        destruct (truthy (seed w)).
        * destruct (Hyes eq_refl) as [-> _]. cbn. lia.
        * destruct (Hno eq_refl) as [-> _]. cbn. lia.
    - unfold elapse.
      assert (Hf : (length (filter (fun e => negb (due (clock w + d) e)) (timers w))
                    <= length (timers w))%nat) by apply filter_length_le.
      destruct (filter (due _) (timers w)); cbn; lia.
    - destruct (nth_error _ _) as [p|]; [|exact Hl].
      destruct (Prompt_respond_same_timers p approved w) as (-> & _). exact Hl. }
  apply H. split; [intros h t [] | cbn; lia].
Qed.

(** X7: with a nonzero inactivity interval, the request that sets a
    passphrase in a locked session arms no lock timer: the check runs
    before the seed is stored.  Until the next request arrives the
    passphrase is held however long the script stays idle. *)
Theorem setSeed_arms_no_timer (payload : string) (w : World) (d : Z) :
  inactivityInterval w <> 0 ->
  seed w = "" ->
  tracked w ->
  let w' := step w (Dispatch (SET_SEED payload)) in
  timers w' = [] /\ seed (elapse d w') = payload.
Proof.
  intros Hi Hs Ht w'.
  assert (Hw : w' = exec (setSeed respond payload) (exec checkAutoLock w)).
  { unfold w'. cbn [step]. rewrite dispenseMessage_exec. reflexivity. }
  destruct (checkAutoLock_nonzero w Hi Ht) as [_ Hno].
  destruct Hno as [Hno _]; [rewrite Hs; reflexivity|].
  assert (Htm : timers w' = []) by (rewrite Hw; cbn; exact Hno).
  split; [exact Htm|].
  rewrite (elapse_idle d w' Htm). rewrite Hw. reflexivity.
Qed.

End Untouched.

(* ------------------------------------------------------------------ *)
(** ** Further properties of the script: the handlers one by one *)

Section Handlers.
Context {X : Collaborators}.

Lemma isUnlocked_fails (w : World) :
  has_length (seed w) = true ->
  Scatter_decrypt (stored w) (seed w) = None ->
  exec (isUnlocked respond) w =
  with_responses (responses w ++ [RBool false]) (with_seed "" w).
Proof.
  intros Hs Hd.
  unfold exec, isUnlocked, promise_then, try_catch, bind, gets, modify, respond,
    StorageService_get, decrypt.
  unfold stored in Hd. cbn. rewrite Hs. cbn. rewrite Hd. reflexivity.
Qed.

(** X8: [isUnlocked] always answers exactly one boolean and changes
    nothing but, possibly, the seed: with no passphrase held the answer is
    [false]; with one held that decrypts the stored document the seed is
    kept and the answer tells whether the keychain came out as an object.
    It answers [true] only in that last case. *)
Theorem isUnlocked_answers (w : World) :
  (seed w = "" ->
   exec (isUnlocked respond) w = with_responses (responses w ++ [RBool false]) w)
  /\
  (forall scatter,
     has_length (seed w) = true ->
     Scatter_decrypt (stored w) (seed w) = Some scatter ->
     exec (isUnlocked respond) w =
     with_responses (responses w ++ [RBool (typeof_keychain_is_object scatter)]) w)
  /\
  (responses (exec (isUnlocked respond) w) = (responses w ++ [RBool true])%list ->
   has_length (seed w) = true /\
   seed (exec (isUnlocked respond) w) = seed w /\
   exists k, option_map keychain (Scatter_decrypt (stored w) (seed w))
             = Some (object k)).
Proof.
  assert (Hlocked : seed w = "" ->
            exec (isUnlocked respond) w =
            with_responses (responses w ++ [RBool false]) w).
  { intro Hs. unfold exec, isUnlocked, bind, gets. rewrite Hs. reflexivity. }
  assert (Hopen : forall scatter,
            has_length (seed w) = true ->
            Scatter_decrypt (stored w) (seed w) = Some scatter ->
            exec (isUnlocked respond) w =
            with_responses
              (responses w ++ [RBool (typeof_keychain_is_object scatter)]) w).
  { intros scatter Hs Hd.
    unfold exec, isUnlocked, promise_then, try_catch, bind, gets, modify, respond,
      StorageService_get, decrypt.
    unfold stored in Hd. cbn. rewrite Hs. cbn. rewrite Hd. reflexivity. }
  split; [exact Hlocked | split; [exact Hopen | ]].
  intro Htrue.
  destruct (has_length (seed w)) eqn:Hs.
  - destruct (Scatter_decrypt (stored w) (seed w)) as [scatter|] eqn:Hd.
    + rewrite (Hopen scatter eq_refl eq_refl) in Htrue |- *. cbn in Htrue |- *.
      apply app_inv_head in Htrue. inversion Htrue as [Hobj].
      split; [reflexivity | split; [reflexivity | ]].
      unfold typeof_keychain_is_object in Hobj.
      destruct (keychain scatter) as [k|c] eqn:Hk; [|discriminate].
      exists k. reflexivity.
    + rewrite (isUnlocked_fails w Hs Hd) in Htrue. cbn in Htrue.
      apply app_inv_head in Htrue. discriminate.
  - apply has_length_empty in Hs. rewrite (Hlocked Hs) in Htrue. cbn in Htrue.
    apply app_inv_head in Htrue. discriminate.
Qed.

(** X9: [load], dispatched, answers the stored document as it is (its
    keychain still a ciphertext) when no passphrase is held, and the
    decrypted one when the held passphrase decrypts it; when decryption
    throws it answers nothing.  In all three cases the inactivity interval
    has been set to the stored one before, and nothing else changes. *)
Theorem load_outcomes (w : World) :
  (seed w = "" ->
   exec (handle respond LOAD) w =
   with_responses (responses w ++ [RScatter (stored w)]) (synced w))
  /\
  (forall scatter,
     has_length (seed w) = true ->
     Scatter_decrypt (stored w) (seed w) = Some scatter ->
     exec (handle respond LOAD) w =
     with_responses (responses w ++ [RScatter scatter]) (synced w))
  /\
  (has_length (seed w) = true ->
   Scatter_decrypt (stored w) (seed w) = None ->
   exec (handle respond LOAD) w = synced w).
Proof.
  split; [ | split ].
  - intro Hs. cbn [handle]. unfold exec. rewrite (load_locked _ _ Hs). reflexivity.
  - intros scatter Hs Hd. cbn [handle]. unfold exec.
    rewrite (load_unlocked _ _ _ Hs Hd). reflexivity.
  - intros Hs Hd. cbn [handle]. unfold exec. rewrite (load_throws _ _ Hs Hd).
    reflexivity.
Qed.

(** X10: [destroy] asks for a held passphrase, not for a correct one:
    with any non-empty seed it clears the seed, empties the storage and
    answers [true].  Afterwards the session is locked and [load] answers
    the placeholder vault. *)
Theorem destroy_wipes (w : World) :
  has_length (seed w) = true ->
  let w' := exec (handle respond DESTROY) w in
  w' = with_responses (responses w ++ [RBool true])
         (with_storage None (with_seed "" w)) /\
  exec (handle respond LOAD) w' =
    with_responses (responses w ++ [RBool true; RScatter Scatter_placeholder])
      (with_inactivityInterval
         (Settings_inactivityInterval (settings Scatter_placeholder)) w').
Proof.
  intros Hs w'.
  assert (Hw : w' = with_responses (responses w ++ [RBool true])
                      (with_storage None (with_seed "" w))).
  { unfold w', exec. cbn [handle]. unfold destroy.
    rewrite (lockGuard_open _ _ _ Hs). reflexivity. }
  split; [exact Hw|].
  cbn [handle]. unfold exec. rewrite (load_locked _ w') by (rewrite Hw; reflexivity).
  rewrite Hw. cbn. rewrite <- app_assoc. reflexivity.
Qed.

(** X11: [setTimeout] under a held passphrase that decrypts the stored
    vault sets the interval to the converted minutes, saves the vault with
    that interval in its settings through the update cycle, and answers
    [true]. *)
Theorem setTimeout_persists (minutes : Z) (w : World)
    (scatter : Scatter Ciphertext) (k : Keychain) :
  has_length (seed w) = true ->
  Scatter_decrypt (stored w) (seed w) = Some scatter ->
  keychain scatter = object k ->
  let interval := TimingHelpers_minutes minutes in
  let cleartext :=
    with_keychain (object (field_encrypted (seed w) k))
      (with_settings (with_interval interval (settings scatter)) scatter) in
  Settings_inactivityInterval (settings cleartext) = interval /\
  exec (handle respond (SET_TIMEOUT minutes)) w =
  with_responses (responses w ++ [RBool true])
    (with_storage (Some (Scatter_encrypt cleartext (seed w)))
       (with_inactivityInterval interval w)).
Proof.
  intros Hs Hd Hk interval cleartext. split; [reflexivity|].
  cbn [handle]. unfold exec, setTimeout, bind at 1.
  rewrite (load_unlocked _ _ _ Hs Hd).
  unfold exec, bind at 1, modify, gets. cbn [fst snd].
  unfold bind at 1. cbn [fst snd].
  rewrite (update_unlocked _
             (with_settings (with_interval interval (settings scatter)) scatter) k
             (with_inactivityInterval interval (synced w)) Hs Hk).
  cbn [fst snd seed with_inactivityInterval synced].
  destruct (Scatter_decrypt (Scatter_encrypt _ _) _); reflexivity.
Qed.

(** X12: [setTimeout] answers [true] also when nothing is saved.  With no
    passphrase held the interval variable is set but the update is
    refused: the lock notice is opened, the storage is not written, and
    the next [load] puts the stored interval back.  With a held passphrase
    that does not decrypt the stored vault not even the variable is set:
    it is left at the stored interval. *)
Theorem setTimeout_without_session (minutes : Z) (w : World) :
  (seed w = "" ->
   let w' := exec (handle respond (SET_TIMEOUT minutes)) w in
   w' = with_responses (responses w ++ [RBool true])
          (with_prompts (prompts w ++ [scatterIsLocked])
             (with_inactivityInterval (TimingHelpers_minutes minutes) w)) /\
   inactivityInterval (exec (handle respond LOAD) w') =
     Settings_inactivityInterval (settings (stored w)))
  /\
  (has_length (seed w) = true ->
   Scatter_decrypt (stored w) (seed w) = None ->
   exec (handle respond (SET_TIMEOUT minutes)) w =
   with_responses (responses w ++ [RBool true]) (synced w)).
Proof.
  split.
  - intros Hs w'.
    assert (Hw : w' = with_responses (responses w ++ [RBool true])
                        (with_prompts (prompts w ++ [scatterIsLocked])
                           (with_inactivityInterval (TimingHelpers_minutes minutes) w))).
    { unfold w', exec. cbn [handle]. rewrite (setTimeout_locked _ _ _ Hs). reflexivity. }
    split; [exact Hw|].
    cbn [handle]. unfold exec. rewrite (load_locked _ w') by (rewrite Hw; exact Hs).
    rewrite Hw. reflexivity.
  - intros Hs Hd. cbn [handle]. unfold exec, setTimeout, bind at 1.
    rewrite (load_throws _ _ Hs Hd). reflexivity.
Qed.

(** X13: [update] handed a document whose keychain is still a ciphertext
    throws under a held passphrase before anything is saved: the world is
    left exactly as it was and no answer is sent. *)
Theorem update_of_encrypted_throws sendResponse (scatter : Scatter Ciphertext)
    (c : Ciphertext) (w : World) :
  has_length (seed w) = true ->
  keychain scatter = ciphertext c ->
  update sendResponse scatter w = (Abrupt, w).
Proof.
  intros Hs Hk. unfold update. rewrite (lockGuard_open _ _ _ Hs).
  unfold Scatter_fromJson, keychain_object, bind. rewrite Hk. reflexivity.
Qed.

End Handlers.

Section Composition.
Context {X : Collaborators}.

(** X14: when the user approves the add-network prompt after the session
    has lost its passphrase, the update inside the callback is refused: the
    lock notice is opened and nothing is saved, yet the requester is
    answered with the approval, because the callback handed to [update]
    ignores the [locked] error it is called with. *)
Theorem approval_after_lock (domain : string) (network : Network)
    (scatter : Scatter Ciphertext) (approved : Response Ciphertext) (w : World) :
  seed w = "" ->
  declines approved = false ->
  approved <> RNull ->
  exec (Prompt_respond respond (addNetworkPrompt domain network scatter) approved) w =
  with_responses (responses w ++ [approved])
    (with_prompts (prompts w ++ [scatterIsLocked]) w).
Proof.
  intros Hs Hd Hn.
  unfold exec, addNetworkPrompt, Prompt_respond, requestAddNetwork_approved.
  destruct approved as [[|]| | | | |]; try discriminate Hd; try congruence;
    unfold update; rewrite (lockGuard_locked _ _ _ Hs); reflexivity.
Qed.

(** X15: [getOrRequestIdentity] under a held passphrase that decrypts the
    stored vault: when the identity service yields no identity the answer
    is the [identity_rejected] error; when it yields one that comes from an
    existing permission the answer is that identity.  In both cases no
    history is added, no permission is granted and the storage is not
    written. *)
Theorem getOrRequestIdentity_without_grant (domain : string) (network : Network)
    (fields : list string) (w : World) (scatter : Scatter Ciphertext) :
  has_length (seed w) = true ->
  Scatter_decrypt (stored w) (seed w) = Some scatter ->
  (forall fromPermission,
     IdentityService_getOrRequestIdentity domain network fields scatter
       = (None, fromPermission) ->
     exec (getOrRequestIdentity respond domain network fields) w =
     with_responses
       (responses w ++
          [RError (Error_signatureError "identity_rejected"
                     "User rejected the provision of an Identity")])
       (synced w))
  /\
  (forall identity,
     IdentityService_getOrRequestIdentity domain network fields scatter
       = (Some identity, true) ->
     exec (getOrRequestIdentity respond domain network fields) w =
     with_responses (responses w ++ [RIdentity identity]) (synced w)).
Proof.
  intros Hs Hd. split.
  - intros fromPermission Hi. unfold exec, getOrRequestIdentity.
    rewrite (lockGuard_open _ _ _ Hs). rewrite (load_unlocked _ _ _ Hs Hd).
    unfold Network_fromJson. cbv zeta. rewrite Hi. reflexivity.
  - intros identity Hi. unfold exec, getOrRequestIdentity.
    rewrite (lockGuard_open _ _ _ Hs). rewrite (load_unlocked _ _ _ Hs Hd).
    unfold Network_fromJson. cbv zeta. rewrite Hi. reflexivity.
Qed.

(** X16: [addHistory] under a held passphrase, with a cipher that undoes
    itself: the event, stamped with the current time, is put in front of
    the histories and saved; decrypting the stored document afterwards
    gives the old histories behind the new event, none removed or
    reordered, and the permissions as they were. *)
Theorem addHistory_prepends (type : HistoricEventType) (data : HistoricData)
    (w : World) (scatter : Scatter Ciphertext) (k : Keychain) :
  (forall (v : Scatter Ciphertext) k s,
     keychain v = object k -> Scatter_decrypt (Scatter_encrypt v s) s = Some v) ->
  has_length (seed w) = true ->
  Scatter_decrypt (stored w) (seed w) = Some scatter ->
  keychain scatter = object k ->
  let w' := exec (addHistory type data) w in
  exists scatter' k',
    Scatter_decrypt (stored w') (seed w') = Some scatter' /\
    histories scatter' =
      {| HistoricEvent_type := type;
         HistoricEvent_data := data;
         HistoricEvent_timestamp := clock w |} :: histories scatter /\
    settings scatter' = settings scatter /\
    keychain scatter' = object k' /\
    permissions k' = permissions k.
Proof.
  intros Hround Hs Hd Hk w'.
  set (event := {| HistoricEvent_type := type;
                   HistoricEvent_data := data;
                   HistoricEvent_timestamp := clock w |}).
  set (cleartext := with_keychain (object (field_encrypted (seed w) k))
                      (with_histories (event :: histories scatter) scatter)).
  assert (Hw : w' = with_storage (Some (Scatter_encrypt cleartext (seed w))) (synced w)).
  { unfold w', exec, addHistory. rewrite (load_unlocked _ _ _ Hs Hd).
    unfold exec, bind at 1, gets. cbn [fst snd].
    rewrite (update_unlocked _ (with_histories (event :: histories scatter) scatter)
               k (synced w) Hs Hk).
    cbn [fst snd seed synced with_inactivityInterval]. fold cleartext.
    destruct (Scatter_decrypt (Scatter_encrypt _ _) _); reflexivity. }
  exists cleartext, (field_encrypted (seed w) k).
  rewrite Hw. cbn. split; [apply (Hround cleartext _ _ eq_refl)|].
  repeat split; reflexivity.
Qed.

(** X17: what [update] saves is what [load] gives back: with a cipher
    that undoes itself on the vault, an update request followed by a load
    request is answered twice with the same vault, the one whose private
    keys are field-encrypted. *)
Theorem update_then_load (scatter : Scatter Ciphertext) (k : Keychain) (w : World) :
  has_length (seed w) = true ->
  keychain scatter = object k ->
  let cleartext := with_keychain (object (field_encrypted (seed w) k)) scatter in
  Scatter_decrypt (Scatter_encrypt cleartext (seed w)) (seed w) = Some cleartext ->
  responses (run w [Dispatch (UPDATE scatter); Dispatch LOAD]) =
  (responses w ++ [RScatter cleartext; RScatter cleartext])%list.
Proof.
  intros Hs Hk cleartext Hd. cbn [run fold_left step].
  rewrite !dispenseMessage_exec.
  destruct (checkAutoLock_frame w) as (_ & Hseed & _ & _ & _ & Hr & _).
  set (w0 := exec checkAutoLock w) in *.
  assert (Hs0 : has_length (seed w0) = true) by congruence.
  assert (H1 : exec (handle respond (UPDATE scatter)) w0 =
               with_responses (responses w ++ [RScatter cleartext])
                 (with_storage (Some (Scatter_encrypt cleartext (seed w))) w0)).
  { cbn [handle]. unfold exec. rewrite (update_unlocked _ _ _ _ Hs0 Hk).
    rewrite Hseed. fold cleartext. rewrite Hd. cbn. rewrite Hr. reflexivity. }
  rewrite H1.
  set (w1 := with_responses _ _).
  destruct (checkAutoLock_frame w1) as (_ & Hseed1 & _ & _ & Hst1 & Hr1 & _).
  set (w2 := exec checkAutoLock w1) in *.
  assert (Hs2 : has_length (seed w2) = true).
  { rewrite Hseed1. unfold w1. cbn. exact Hs0. }
  assert (Hd2 : Scatter_decrypt (stored w2) (seed w2) = Some cleartext).
  { unfold stored. rewrite Hst1, Hseed1. unfold w1. cbn. rewrite Hseed. exact Hd. }
  cbn [handle]. unfold exec. rewrite (load_unlocked _ _ _ Hs2 Hd2).
  cbn. rewrite Hr1. unfold w1. cbn. rewrite <- app_assoc. reflexivity.
Qed.

End Composition.

Lemma reading_requests_never_write_witness :
  storage (step Ideal.unlocked (Dispatch (AUTHENTICATE "A" "dapp.example"))) =
  Some Ideal.vault.
Proof.
  apply (reading_requests_never_write (AUTHENTICATE "A" "dapp.example")
           Ideal.unlocked).
  reflexivity.
Defined.

Lemma locked_session_never_writes_witness :
  storage (step Ideal.locked (Dispatch (UPDATE Ideal.opened))) = Some Ideal.vault /\
  storage (step Ideal.locked (Dispatch (SET_TIMEOUT 5))) = Some Ideal.vault.
Proof.
  split.
  - apply (locked_session_never_writes (Dispatch (UPDATE Ideal.opened)) Ideal.locked).
    reflexivity.
  - apply (locked_session_never_writes (Dispatch (SET_TIMEOUT 5)) Ideal.locked).
    reflexivity.
Defined.

Lemma locked_session_answers_witness :
  responses (step Ideal.locked (Dispatch LOAD)) = [RScatter Ideal.vault] /\
  responses (step Ideal.locked (Dispatch (REQUEST_VERSION_UPDATE "dapp.example"))) = [].
Proof.
  split.
  - apply (locked_session_answers LOAD Ideal.locked). reflexivity.
  - apply (locked_session_answers (REQUEST_VERSION_UPDATE "dapp.example") Ideal.locked).
    reflexivity.
Defined.

Lemma seed_kept_or_cleared_witness :
  kept_or_cleared Ideal.unlocked
    (run Ideal.unlocked [Dispatch IS_UNLOCKED; Elapse 5; Dispatch DESTROY]).
Proof.
  apply (seed_kept_or_cleared [Dispatch IS_UNLOCKED; Elapse 5; Dispatch DESTROY]
           Ideal.unlocked).
  intros payload [H | [H | [H | []]]]; discriminate H.
Defined.

Lemma setSeed_arms_no_timer_witness :
  let w := step (with_inactivityInterval 300000 Ideal.locked)
             (Dispatch (SET_SEED "correct-seed")) in
  timers w = [] /\ seed (elapse 86400000 w) = "correct-seed".
Proof.
  cbv zeta.
  apply (setSeed_arms_no_timer "correct-seed"
           (with_inactivityInterval 300000 Ideal.locked) 86400000).
  - cbn. discriminate.
  - reflexivity.
  - intros h t [].
Defined.

Lemma isUnlocked_answers_witness :
  exec (isUnlocked respond) Ideal.locked = with_responses [RBool false] Ideal.locked /\
  exec (isUnlocked respond) Ideal.unlocked = with_responses [RBool true] Ideal.unlocked.
Proof.
  split.
  - destruct (isUnlocked_answers Ideal.locked) as (locked & _). apply locked. reflexivity.
  - destruct (isUnlocked_answers Ideal.unlocked) as (_ & opened & _).
    apply (opened Ideal.opened); reflexivity.
Defined.

Lemma load_outcomes_witness :
  exec (handle respond LOAD) Ideal.locked =
    with_responses [RScatter Ideal.vault] Ideal.locked /\
  exec (handle respond LOAD) Ideal.unlocked =
    with_responses [RScatter Ideal.opened] Ideal.unlocked /\
  exec (handle respond LOAD) Ideal.mistaken = Ideal.mistaken.
Proof.
  split; [ | split ].
  - destruct (load_outcomes Ideal.locked) as (locked & _). apply locked. reflexivity.
  - destruct (load_outcomes Ideal.unlocked) as (_ & opened & _).
    apply (opened Ideal.opened); reflexivity.
  - destruct (load_outcomes Ideal.mistaken) as (_ & _ & failing).
    apply failing; reflexivity.
Defined.

Lemma destroy_wipes_witness :
  exec (handle respond DESTROY) Ideal.mistaken =
  with_responses [RBool true] (with_storage None Ideal.locked).
Proof.
  destruct (destroy_wipes Ideal.mistaken eq_refl) as [wiped _]. exact wiped.
Defined.

Lemma setTimeout_persists_witness :
  let w := exec (handle respond (SET_TIMEOUT 5)) Ideal.unlocked in
  inactivityInterval w = 300000 /\
  option_map (fun v => Settings_inactivityInterval (settings v)) (storage w) =
    Some 300000.
Proof.
  cbv zeta.
  destruct (setTimeout_persists 5 Ideal.unlocked Ideal.opened Ideal.keys
              eq_refl eq_refl eq_refl) as [_ saved].
  rewrite saved. split; reflexivity.
Defined.

Lemma setTimeout_without_session_witness :
  let w := exec (handle respond (SET_TIMEOUT 5)) Ideal.locked in
  w = with_responses [RBool true]
        (with_prompts [scatterIsLocked]
           (with_inactivityInterval 300000 Ideal.locked)) /\
  inactivityInterval (exec (handle respond LOAD) w) = 0 /\
  exec (handle respond (SET_TIMEOUT 5)) Ideal.mistaken =
    with_responses [RBool true] Ideal.mistaken.
Proof.
  cbv zeta.
  destruct (setTimeout_without_session 5 Ideal.locked) as (locked & _).
  destruct (setTimeout_without_session 5 Ideal.mistaken) as (_ & failing).
  destruct (locked eq_refl) as [H1 H2].
  split; [exact H1 | split; [exact H2 | ]].
  apply failing; reflexivity.
Defined.

Lemma update_of_encrypted_throws_witness :
  update respond Ideal.vault Ideal.unlocked = (Abrupt, Ideal.unlocked).
Proof.
  apply (update_of_encrypted_throws respond Ideal.vault
           (Ideal.keys, "correct-seed") Ideal.unlocked); reflexivity.
Defined.

Lemma approval_after_lock_witness :
  let new := {| host := "other.example"; port := 443 |} in
  exec (Prompt_respond respond (addNetworkPrompt "dapp.example" new Ideal.opened)
          (RBool true)) Ideal.locked =
  with_responses [RBool true] (with_prompts [scatterIsLocked] Ideal.locked).
Proof.
  cbv zeta.
  apply (approval_after_lock "dapp.example" {| host := "other.example"; port := 443 |}
           Ideal.opened (RBool true) Ideal.locked);
    [reflexivity | reflexivity | discriminate].
Defined.

Lemma getOrRequestIdentity_without_grant_witness :
  let network := {| host := "node.example"; port := 8888 |} in
  exec (getOrRequestIdentity respond "dapp.example" network ["name"]) Ideal.unlocked =
    with_responses
      [RError (Error_signatureError "identity_rejected"
                 "User rejected the provision of an Identity")]
      Ideal.unlocked /\
  responses
    (exec (@getOrRequestIdentity Ideal_permitted respond "dapp.example" network ["name"])
       (with_seed "correct-seed" (@initial Ideal_permitted (Some Ideal.vault)))) =
    [RIdentity {| Identity_name := "alice";
                  Identity_publicKey := "A";
                  Identity_privateKey := "aes:correct-seed|5Kpriv";
                  Identity_fields := [] |}].
Proof.
  cbv zeta. split.
  - destruct (getOrRequestIdentity_without_grant "dapp.example"
                {| host := "node.example"; port := 8888 |} ["name"]
                Ideal.unlocked Ideal.opened eq_refl eq_refl) as [rejected _].
    apply (rejected false). reflexivity.
  - destruct (@getOrRequestIdentity_without_grant Ideal_permitted "dapp.example"
                {| host := "node.example"; port := 8888 |} ["name"]
                (with_seed "correct-seed" (@initial Ideal_permitted (Some Ideal.vault)))
                Ideal.opened eq_refl eq_refl) as [_ permitted].
    rewrite (permitted _ eq_refl). reflexivity.
Defined.

Lemma addHistory_prepends_witness :
  let w := exec (addHistory PROVIDED_IDENTITY (otherData "note")) Ideal.unlocked in
  exists scatter,
    Scatter_decrypt (stored w) (seed w) = Some scatter /\
    histories scatter =
      [ {| HistoricEvent_type := PROVIDED_IDENTITY;
           HistoricEvent_data := otherData "note";
           HistoricEvent_timestamp := 0 |} ].
Proof.
  cbv zeta.
  destruct (addHistory_prepends PROVIDED_IDENTITY (otherData "note")
              Ideal.unlocked Ideal.opened Ideal.keys
              Ideal_roundtrip eq_refl eq_refl eq_refl)
    as (scatter & k & H1 & H2 & _).
  exists scatter. split; [exact H1 | exact H2].
Defined.

Lemma update_then_load_witness :
  responses (run Ideal.unlocked
               [Dispatch (UPDATE (with_keychain (object Ideal.imported) Ideal.opened));
                Dispatch LOAD]) =
  [RScatter Ideal.opened; RScatter Ideal.opened].
Proof.
  apply (update_then_load (with_keychain (object Ideal.imported) Ideal.opened)
           Ideal.imported Ideal.unlocked); reflexivity.
Defined.

Section Activity.
Context {X : Collaborators}.

Lemma elapse_early (d : Z) (w : World) (handle : positive) (deadline : Z) :
  timers w = [(handle, deadline)] ->
  clock w + d < deadline ->
  elapse d w = with_clock (clock w + d) w.
Proof.
  intros Ht Hd. unfold elapse. rewrite Ht. cbn. unfold due. cbn.
  destruct (Z.leb_spec deadline (clock w + d)); [lia|]. cbn.
  destruct w; cbn in *; subst; reflexivity.
Qed.

Lemma passive_dispatch (m : InternalMessage) (w : World) :
  passive m = true ->
  same_timers (exec checkAutoLock w) (step w (Dispatch m)) /\
  seed (step w (Dispatch m)) = seed w /\
  inactivityInterval (step w (Dispatch m)) = inactivityInterval w.
Proof.
  intro Hp. cbn [step]. rewrite dispenseMessage_exec.
  destruct (checkAutoLock_frame w) as (_ & Hseed & Hint & _).
  split; [apply handle_same_timers|].
  destruct m; try discriminate Hp; cbn; auto.
Qed.

(** X18: while the inactivity interval is zero a dispatched request
    neither schedules nor cancels a timer: the timer table and
    [timeoutLocker] are what they were, a timer pending from an earlier
    nonzero interval included. *)
Theorem zero_interval_leaves_timers (m : InternalMessage) (w : World) :
  inactivityInterval w = 0 ->
  timers (step w (Dispatch m)) = timers w /\
  timeoutLocker (step w (Dispatch m)) = timeoutLocker w.
Proof.
  intro Hz. cbn [step]. rewrite dispenseMessage_exec.
  destruct (handle_same_timers m (exec checkAutoLock w)) as (H1 & H2 & _).
  rewrite H1, H2, (checkAutoLock_zero w Hz). auto.
Qed.

(** X19: activity postpones the lock.  With an interval the runtime's
    timers can wait for (at most 2147483647 ms) and a passphrase held, as
    long as requests that leave the seed and the interval alone
    (requestGetVersion, requestVersionUpdate, an unrecognised type) keep
    arriving with idle gaps shorter than the interval between them, the
    passphrase is still held, however long the run is in total. *)
Theorem activity_postpones_lock (arrivals : list (InternalMessage * Z)) (w : World) :
  tracked w ->
  truthy (seed w) = true ->
  inactivityInterval w <= 2147483647 ->
  Forall (fun a => passive (fst a) = true /\ 0 <= snd a < inactivityInterval w)
         arrivals ->
  seed (run w (spaced arrivals)) = seed w.
Proof.
  revert w.
  induction arrivals as [|[m d] rest IH]; intros w Ht Hs Hmax Hall; [reflexivity|].
  inversion Hall as [|a l [Hp Hd] Hrest]; subst. cbn [fst snd] in Hp, Hd.
  change (seed (run (step (step w (Dispatch m)) (Elapse d)) (spaced rest)) = seed w).
  assert (Hi : inactivityInterval w <> 0) by lia.
  destruct (passive_dispatch m w Hp) as ((T1 & T2 & T3 & _) & Hseed & Hint).
  destruct (checkAutoLock_nonzero w Hi Ht) as [Hyes _].
  destruct (Hyes Hs) as [Ha Hb].
  destruct (checkAutoLock_frame w) as (_ & _ & _ & Hclock & _).
  set (w1 := step w (Dispatch m)) in *.
  assert (Htm : timers w1 = [(nextHandle w, clock w + inactivityInterval w)]).
  { rewrite T1, Ha, timer_delay_in_range by lia. reflexivity. }
  assert (He : step w1 (Elapse d) = with_clock (clock w1 + d) w1).
  { cbn [step]. apply (elapse_early d w1 _ _ Htm). rewrite T3, Hclock. lia. }
  rewrite He. rewrite IH.
  - exact Hseed.
  - intros h t Hin. change (In (h, t) (timers w1)) in Hin.
    change (timeoutLocker w1 = Some h). rewrite Htm in Hin.
    destruct Hin as [E|[]]. inversion E; subst. congruence.
  - change (truthy (seed w1) = true). rewrite Hseed. exact Hs.
  - change (inactivityInterval w1 <= 2147483647). rewrite Hint. exact Hmax.
  - change (Forall (fun a => passive (fst a) = true /\
                             0 <= snd a < inactivityInterval w1) rest).
    rewrite Hint. exact Hrest.
Qed.

End Activity.

Lemma zero_interval_leaves_timers_witness :
  let w := run Ideal.unlocked
             [Dispatch (SET_TIMEOUT 5); Dispatch IS_UNLOCKED; Dispatch (SET_TIMEOUT 0);
              Dispatch LOAD] in
  timers (step w (Dispatch REQUEST_GET_VERSION)) = [(2%positive, 300000)].
Proof.
  cbv zeta.
  destruct (zero_interval_leaves_timers REQUEST_GET_VERSION
              (run Ideal.unlocked
                 [Dispatch (SET_TIMEOUT 5); Dispatch IS_UNLOCKED;
                  Dispatch (SET_TIMEOUT 0); Dispatch LOAD]) eq_refl) as [kept _].
  rewrite kept. reflexivity.
Defined.

Lemma activity_postpones_lock_witness :
  seed (run (with_inactivityInterval 300000 Ideal.unlocked)
          (spaced [(REQUEST_GET_VERSION, 240000); (REQUEST_GET_VERSION, 240000);
                   (REQUEST_VERSION_UPDATE "dapp.example", 299999)])) =
  "correct-seed".
Proof.
  apply (activity_postpones_lock
           [(REQUEST_GET_VERSION, 240000); (REQUEST_GET_VERSION, 240000);
            (REQUEST_VERSION_UPDATE "dapp.example", 299999)]
           (with_inactivityInterval 300000 Ideal.unlocked)).
  - intros h t [].
  - reflexivity.
  - cbn. lia.
  - repeat constructor; cbn; lia.
Defined.

(* ------------------------------------------------------------------ *)
(** ** Further properties of the script: a new identity *)

Section NewIdentity.
Context {X : Collaborators}.

(** [load] is its callback run on the stored document. *)
Lemma load_resolved_stored (k : Scatter Ciphertext -> Eff unit) (w : World) :
  load k w = load_resolved (stored w) k w.
Proof. reflexivity. Qed.





End NewIdentity.


(** An interval beyond what a timer can wait for: forty thousand minutes
    are 2400000000 ms, the timer armed by the next request fires at once,
    and the passphrase is gone after a millisecond. *)
Example interval_beyond_timer_range :
  let w := run Ideal.unlocked [Dispatch (SET_TIMEOUT 40000); Dispatch IS_UNLOCKED] in
  inactivityInterval w = 2400000000 /\
  seed w = "correct-seed" /\
  seed (step w (Elapse 1)) = "".
Proof. cbv zeta. repeat split; vm_compute; reflexivity. Qed.
